(** * Data-availability certificates and layered configuration (nitro)

    A shallow embedding of [das/das.go] (mode selection, the store-signer
    address resolver, the certificate wire format) and of the layered
    configuration loader ([applyOverrides] and its helpers), followed by
    the properties of these functions. *)

From Stdlib Require Import ZArith Lia List Strings.String Strings.Ascii Strings.Byte Bool.
From stdpp Require Import base option list vector gmap strings.

Local Open Scope Z_scope.
Local Open Scope list_scope.

(** ** Go values shared by both packages *)
Module Go.

(** Go's [error] interface, restricted to the values these two files can
    produce: [errors.New], the two errors of [encoding/hex], and
    [errors.Wrap] of github.com/pkg/errors.  A nil error is [None]. *)
Inductive error : Type :=
| errors_New (msg : string)
| hex_InvalidByteError (b : byte)
| hex_ErrLength
| errors_Wrap (cause : error) (msg : string).

(** [byte(v)] for an integer [v]: the low eight bits. *)
Definition byte_of_Z (z : Z) : byte :=
  match Byte.of_N (Z.to_N (z mod 256)) with
  | Some b => b
  | None => x00
  end.

Definition Z_of_byte (b : byte) : Z := Z.of_N (Byte.to_N b).

(** [[]byte(s)]: a Go string is its sequence of bytes. *)
Definition bytes_of_string (s : string) : list byte := list_byte_of_string s.

(** [strings.TrimPrefix(s, prefix)]: [s] without the leading [prefix], or
    [s] itself when it does not start with [prefix]. *)
Fixpoint cut_prefix (s prefix : string) : option string :=
  match prefix with
  | EmptyString => Some s
  | String p prefix' =>
      match s with
      | EmptyString => None
      | String c s' => if Ascii.eqb c p then cut_prefix s' prefix' else None
      end
  end.

Definition strings_HasPrefix (s prefix : string) : bool :=
  match cut_prefix s prefix with Some _ => true | None => false end.

Definition strings_TrimPrefix (s prefix : string) : string :=
  match cut_prefix s prefix with Some rest => rest | None => s end.

(** [encoding/hex]: [reverseHexTable] sends a hexadecimal digit to its
    value and every other byte to 0xff. *)
Definition reverseHexTable (c : byte) : Z :=
  let n := Z_of_byte c in
  if (48 <=? n) && (n <=? 57) then n - 48
  else if (97 <=? n) && (n <=? 102) then n - 87
  else if (65 <=? n) && (n <=? 70) then n - 55
  else 255.

(** [hex.Decode]: the loop consumes two characters per output byte; the
    bytes decoded so far are returned next to the error. *)
Fixpoint hex_Decode (src : list byte) : list byte * option error :=
  match src with
  | [] => ([], None)
  | [p] =>
      if reverseHexTable p >? 15 then ([], Some (hex_InvalidByteError p))
      else ([], Some hex_ErrLength)
  | p :: q :: rest =>
      let a := reverseHexTable p in
      let b := reverseHexTable q in
      if a >? 15 then ([], Some (hex_InvalidByteError p))
      else if b >? 15 then ([], Some (hex_InvalidByteError q))
      else
        let (out, err) := hex_Decode rest in
        (byte_of_Z (Z.lor (Z.shiftl a 4) b) :: out, err)
  end.

Definition hex_DecodeString (s : string) : list byte * option error :=
  hex_Decode (bytes_of_string s).

(** [binary.BigEndian.PutUint64]: the eight bytes of a 64-bit value, most
    significant first. *)
Definition PutUint64 (v : Z) : list byte :=
  [ byte_of_Z (Z.shiftr v 56); byte_of_Z (Z.shiftr v 48);
    byte_of_Z (Z.shiftr v 40); byte_of_Z (Z.shiftr v 32);
    byte_of_Z (Z.shiftr v 24); byte_of_Z (Z.shiftr v 16);
    byte_of_Z (Z.shiftr v 8); byte_of_Z v ].

(** The number a byte sequence denotes when read most significant byte
    first. *)
Definition be_value (bs : list byte) : Z :=
  fold_left (fun acc b => acc * 256 + Z_of_byte b) bs 0.

(** A fixed-size array [[n]byte] filled from the front of a slice; slots
    past the end of the slice keep the zero byte. *)
Fixpoint array_of_list (n : nat) (l : list byte) : vec byte n :=
  match n with
  | O => [#]
  | S n' =>
      match l with
      | [] => x00 ::: array_of_list n' []
      | b :: l' => b ::: array_of_list n' l'
      end
  end.

End Go.

Export Go.

(** ** Package das: modes, the store-signer address, the wire format *)
Module Das.

(** What [das.go] imports from its sibling files and from package
    [arbstate] and [blsSignatures]; their declarations are outside the
    two files embedded here, so they are taken as an interface. *)
Class Imports := {
  (** [arbstate.DASMessageHeaderFlag]. *)
  DASMessageHeaderFlag : byte;
  (** [blsSignatures.Signature] and its byte encoding. *)
  Signature : Type;
  SignatureToBytes : Signature -> list byte;
  (** [AggregatorConfig] is declared next to the aggregator; [Mode] only
      compares it with [DefaultAggregatorConfig] through
      [reflect.DeepEqual], which on plain configuration structs is
      structural equality.  [AggregatorConfig_zero] is Go's zero value. *)
  AggregatorConfig : Type;
  AggregatorConfig_eq :: EqDecision AggregatorConfig;
  DefaultAggregatorConfig : AggregatorConfig;
  AggregatorConfig_zero : AggregatorConfig
}.

(** Output on the operator's terminal. *)
Inductive event : Type := flag_Usage.

Definition DataAvailabilityMode : Type := Z.

Definition OnchainDataAvailability : DataAvailabilityMode := 0.
Definition LocalDiskDataAvailability : DataAvailabilityMode := 1.
Definition AggregatorDataAvailability : DataAvailabilityMode := 2.

Definition OnchainDataAvailabilityString : string := "onchain".
Definition LocalDiskDataAvailabilityString : string := "local-disk".
Definition AggregatorDataAvailabilityString : string := "aggregator".

(** The fields of [LocalDiskDASConfig] that [Mode] reads. *)
Record LocalDiskDASConfig : Type := {
  KeyDir : string;
  PrivKey : string;
  DataDir : string
}.

Definition AddressLength : nat := 20.

(** [common.Address] is [[20]byte]. *)
Definition Address : Type := vec byte AddressLength.

(** [common.BytesToAddress]: [SetBytes] on a zero address keeps the last
    twenty bytes of a longer slice and right-aligns a shorter one. *)
Definition BytesToAddress (b : list byte) : Address :=
  let b :=
    if (AddressLength <? length b)%nat
    then drop (length b - AddressLength) b else b in
  array_of_list AddressLength (replicate (AddressLength - length b) x00 ++ b).

Definition StoreSignerAddressFromString (s : string)
  : option Address * option error :=
  if String.eqb s "none" then (None, None)
  else
    let s := strings_TrimPrefix s "0x" in
    let (addrBytes, err) := hex_DecodeString s in
    match err with
    | Some e => (None, Some e)
    | None =>
        let addr := BytesToAddress addrBytes in
        (Some addr, None)
    end.

Section WithImports.
Context `{Imports}.

Record DataAvailabilityConfig : Type := {
  ModeImpl : string;
  LocalDiskDASConfig_ : LocalDiskDASConfig;
  AggregatorConfig_ : AggregatorConfig;
  StoreSignerAddress : string
}.

Definition DefaultDataAvailabilityConfig : DataAvailabilityConfig :=
  {| ModeImpl := OnchainDataAvailabilityString;
     LocalDiskDASConfig_ := {| KeyDir := ""; PrivKey := ""; DataDir := "" |};
     AggregatorConfig_ := AggregatorConfig_zero;
     StoreSignerAddress := "" |}.

(** [Mode] threads the terminal output: [flag.Usage()] appends an event. *)
Definition Mode (c : DataAvailabilityConfig) (out : list event)
  : (DataAvailabilityMode * option error) * list event :=
  if String.eqb (ModeImpl c) "" then
    ((0, Some (errors_New "--data-availability.mode missing")), out)
  else if String.eqb (ModeImpl c) OnchainDataAvailabilityString then
    ((OnchainDataAvailability, None), out)
  else if String.eqb (ModeImpl c) LocalDiskDataAvailabilityString then
    if String.eqb (DataDir (LocalDiskDASConfig_ c)) ""
       || (String.eqb (KeyDir (LocalDiskDASConfig_ c)) ""
           && String.eqb (PrivKey (LocalDiskDASConfig_ c)) "")
    then
      let out := out ++ [flag_Usage] in
      ((0, Some (errors_New "--data-availability.local-disk.data-dir and .key-dir must be specified if mode is set to local")), out)
    else ((LocalDiskDataAvailability, None), out)
  else if String.eqb (ModeImpl c) AggregatorDataAvailabilityString then
    if bool_decide (AggregatorConfig_ c = DefaultAggregatorConfig) then
      let out := out ++ [flag_Usage] in
      ((0, Some (errors_New "--data-availability.aggregator.X config options must be specified if mode is set to aggregator")), out)
    else ((AggregatorDataAvailability, None), out)
  else
    let out := out ++ [flag_Usage] in
    ((0, Some (errors_New ("--data-availability.mode " +:+ ModeImpl c +:+ " not recognized"))), out).

(** [arbstate.DataAvailabilityCertificate]: two 32-byte hashes, two
    [uint64] (integers below 2^64) and the aggregate signature. *)
Record DataAvailabilityCertificate : Type := {
  KeysetHash : vec byte 32;
  DataHash : vec byte 32;
  Timeout : Z;
  SignersMask : Z;
  Sig : Signature
}.

Definition serializeSignableFields (c : DataAvailabilityCertificate)
  : list byte :=
  let buf := [] in
  let buf := buf ++ vec_to_list (DataHash c) in
  let intData := PutUint64 (Timeout c) in
  let buf := buf ++ intData in
  buf.

Definition Serialize (c : DataAvailabilityCertificate) : list byte :=
  let buf := [] in
  let buf := buf ++ [DASMessageHeaderFlag] in
  let buf := buf ++ vec_to_list (KeysetHash c) in
  let buf := buf ++ serializeSignableFields c in
  let intData := PutUint64 (SignersMask c) in
  let buf := buf ++ intData in
  buf ++ SignatureToBytes (Sig c).

End WithImports.

End Das.

(** ** Package util: the layered configuration loader *)
Module ConfUtil.

Local Open Scope string_scope.

(** A parsed [pflag] flag: its current value (the default unless the
    command line set it) and whether the command line set it. *)
Record Flag : Type := { Value : string; Changed : bool }.

Record s3_Config : Type := {
  AccessKey : string;
  SecretKey : string;
  Region : string;
  Bucket : string;
  ObjectKey : string
}.

(** The world outside the process and the library functions whose tables
    are not written out here.  A [koanf.Koanf] is modelled by the leaves
    of its nested map (koanf's own flattened view): the dotted path of
    a leaf, delimiter ".", and the text of its value. *)
Class Providers := {
  (** [os.Environ()], each entry split at its first "=". *)
  os_Environ : list (string * string);
  (** [json.Parser().Unmarshal]: the scalars of the parsed document, by
      their dotted paths. *)
  json_Unmarshal : string -> error + gmap string string;
  (** [file.Provider(path).ReadBytes]. *)
  file_ReadBytes : string -> error + string;
  (** The error of [s3.Provider(cfg).Read]: the S3 provider implements
      [ReadBytes] only, and its [Read] returns this error. *)
  s3_unsupported : error;
  (** [strings.ToLower] on text that is not pure ASCII. *)
  unicode_ToLower : string -> string;
  (** [fmt.Sprintf("%v", m)] for a nested map [m], given by its leaves. *)
  fmt_map : gmap string string -> string;
  (** [f.Parse(args)]: the flag set after parsing and [f.NArg()]. *)
  pflag_Parse :
    gmap string Flag -> list string -> error + (gmap string Flag * nat);
  (** The order in which Go's [range] visits a map: the language fixes
      none, every entry is visited once. *)
  go_range : gmap string string -> list (string * string);
  go_range_Permutation : forall m, go_range m ≡ₚ map_to_list m
}.

(** [q] lies below [p] in the nested map: [p] and the delimiter start
    [q]. *)
Definition below (p q : string) : bool := strings_HasPrefix q (p +:+ ".").

(** One of the two paths lies below the other. *)
Definition related (p q : string) : bool := below p q || below q p.

(** The path names a nested map of [k]: some leaf lies below it. *)
Definition has_below (k : gmap string string) (path : string) : bool :=
  existsb (fun '(q, _) => below path q) (map_to_list k).

(** The leaves of [k] below [path]. *)
Definition subtree (k : gmap string string) (path : string)
  : gmap string string :=
  filter (fun kv => below path (fst kv) = true) k.

(** [k.Exists(path)]: the path of a leaf or of a nested map. *)
Definition k_Exists (k : gmap string string) (path : string) : bool :=
  bool_decide (is_Some (k !! path)) || has_below k path.

(** Some leaf of [mp] lies above or below [q]. *)
Definition clashes (mp : gmap string string) (q : string) : bool :=
  existsb (fun '(p, _) => related p q) (map_to_list mp).

(** [maps.Merge(mp, k)]: the leaves of [mp] are put over [k]; a leaf of
    [mp] replaces the whole nested map of [k] at its path, and a nested
    map of [mp] replaces a leaf of [k] at its path, so the leaves of [k]
    above or below a leaf of [mp] are gone.  (koanf's flattened view also
    keeps an empty object as a leaf, and does not put that one over a
    nested map; the leaves here are scalars.) *)
Definition maps_Merge (mp k : gmap string string) : gmap string string :=
  mp ∪ filter (fun kv => clashes mp (fst kv) = false) k.

(** The path of [word] in the map at [cur]; the root map has no path. *)
Definition path_join (cur : option string) (word : string) : string :=
  match cur with
  | None => word
  | Some c => c +:+ "." +:+ word
  end.

(** [maps.Unflatten] walks down the parts of a key: a part that names a
    nested map, or nothing yet, is entered; a part that names a leaf is
    skipped.  The result is the path at which the value is stored. *)
Fixpoint unflatten_path (out : gmap string string) (cur : option string)
    (word rest : string) : string :=
  match rest with
  | EmptyString => path_join cur word
  | String c rest' =>
      if Ascii.eqb c "." then
        let cand := path_join cur word in
        match out !! cand with
        | Some _ => unflatten_path out cur "" rest'
        | None => unflatten_path out (Some cand) "" rest'
        end
      else unflatten_path out cur (word +:+ String c "") rest'
  end.

(** Storing a value replaces what was at its path, leaf or nested map. *)
Definition unflatten_assign (out : gmap string string) (key v : string)
  : gmap string string :=
  let final := unflatten_path out None "" key in
  <[final := v]> (filter (fun kv => below final (fst kv) = false) out).

(** A loader step works on the shared [Koanf] and may return an error. *)
Definition action : Type :=
  gmap string string -> gmap string string * option error.

(** [k.Load]: a successful read is merged into the current content. *)
Definition k_Load (src : error + gmap string string) : action :=
  fun k =>
    match src with
    | inl err => (k, Some err)
    | inr mp => (maps_Merge mp k, None)
    end.

(** [if err := a; err != nil { return errors.Wrap(err, msg) }; rest]. *)
Definition or_wrap (a : action) (msg : string) (rest : action) : action :=
  fun k =>
    match a k with
    | (k', Some err) => (k', Some (errors_Wrap err msg))
    | (k', None) => rest k'
    end.

(** [if err := a; err != nil { return err }; rest]. *)
Definition or_return (a : action) (rest : action) : action :=
  fun k =>
    match a k with
    | (k', Some err) => (k', Some err)
    | (k', None) => rest k'
    end.

Definition return_nil : action := fun k => (k, None).

Notation "'check' a 'wrap' msg ;; rest" := (or_wrap a msg rest)
  (at level 10, a at level 9, msg at level 0, rest at level 200,
   format "'[v' 'check'  a  'wrap'  msg ;; '/' rest ']'").
Notation "'check' a ;; rest" := (or_return a rest)
  (at level 10, a at level 9, rest at level 200,
   format "'[v' 'check'  a ;; '/' rest ']'").

(** The flat map [posflag.Provider(f, ".", ko).Read] builds: a flag the
    command line did not set is skipped when [ko] already has its key;
    every other flag contributes its value. *)
Definition posflag_Read (f : gmap string Flag) (ko : gmap string string)
  : gmap string string :=
  map_imap (fun key fl =>
              if negb (Changed fl) && k_Exists ko key then None
              else Some (Value fl)) f.

(** Lower case for the ASCII letters, every other byte kept: what
    [strings.ToLower] does on pure ASCII text. *)
Definition lower_ascii (c : ascii) : ascii :=
  let n := N_of_ascii c in
  if ((65 <=? n) && (n <=? 90))%N then ascii_of_N (n + 32) else c.

Fixpoint ascii_ToLower (s : string) : string :=
  match s with
  | EmptyString => EmptyString
  | String c s' => String (lower_ascii c) (ascii_ToLower s')
  end.

(** Every byte is below [utf8.RuneSelf]. *)
Fixpoint is_ascii (s : string) : bool :=
  match s with
  | EmptyString => true
  | String c s' => (N_of_ascii c <? 128)%N && is_ascii s'
  end.

(** [strings.ReplaceAll(s, old, new)] for a non-empty [old]: matches are
    replaced from the left and do not overlap. *)
Fixpoint ReplaceAll_from (fuel : nat) (s old new : string) : string :=
  match fuel with
  | O => s
  | S fuel' =>
      match s with
      | EmptyString => EmptyString
      | String c s' =>
          match cut_prefix s old with
          | Some rest => new +:+ ReplaceAll_from fuel' rest old new
          | None => String c (ReplaceAll_from fuel' s' old new)
          end
      end
  end.

Definition strings_ReplaceAll (s old new : string) : string :=
  ReplaceAll_from (String.length s) s old new.

Section WithProviders.
Context `{Providers}.

(** [maps.Unflatten(mp, ".")]: the nested map of a flat map, built key
    by key in the order of [range].  When no key of [mp] lies below
    another the leaves are [mp] itself; otherwise the result depends on
    that order. *)
Definition maps_Unflatten (mp : gmap string string) : gmap string string :=
  fold_left (fun out '(key, v) => unflatten_assign out key v)
    (go_range mp) ∅.

(** [strings.ToLower]: the ASCII fast path written out, the Unicode
    mapping taken from the library. *)
Definition strings_ToLower (s : string) : string :=
  if is_ascii s then ascii_ToLower s else unicode_ToLower s.

(** The key callback of [loadEnvironmentVariables]: FOO__BAR becomes
    foo-bar, and a single underscore becomes the key delimiter. *)
Definition env_key (envPrefix : string) (s : string) : string :=
  let s := strings_ReplaceAll
             (strings_ToLower (strings_TrimPrefix s (envPrefix +:+ "_")))
             "__" "-" in
  strings_ReplaceAll s "_" ".".

(** [k.String(path)]: the text of a leaf, the printed form of a nested
    map, the empty string when the path is absent. *)
Definition k_String (k : gmap string string) (path : string) : string :=
  match k !! path with
  | Some v => v
  | None => if has_below k path then fmt_map (subtree k path) else ""
  end.

(** The flat map [env.Provider(prefix, ".", cb).Read] builds: the entries
    whose text starts with [prefix], keyed by [cb]; an entry whose key
    comes out empty is dropped, a later entry overwrites an earlier one
    with the same key. *)
Definition env_Read (prefix : string) (cb : string -> string)
  : gmap string string :=
  fold_left
    (fun mp '(name, value) =>
       if strings_HasPrefix (name +:+ "=" +:+ value) prefix then
         let key := cb name in
         if String.eqb key "" then mp else <[key := value]> mp
       else mp)
    os_Environ ∅.

Definition loadEnvironmentVariables : action :=
  fun k =>
    let envPrefix := k_String k "conf.env-prefix" in
    if negb (String.length envPrefix =? 0)%nat then
      k_Load (inr (maps_Unflatten
                     (env_Read (envPrefix +:+ "_") (env_key envPrefix)))) k
    else return_nil k.

(** [s3.Provider(cfg).Read]: not supported by the provider. *)
Definition s3_Read (cfg : s3_Config) : error + gmap string string :=
  inl s3_unsupported.

(** The S3 provider is loaded without a parser, so koanf calls its
    [Read]. *)
Definition loadS3Variables : action :=
  fun k =>
    k_Load (s3_Read {| AccessKey := k_String k "conf.s3.access-key";
                       SecretKey := k_String k "conf.s3.secret-key";
                       Region := k_String k "conf.s3.region";
                       Bucket := k_String k "conf.s3.bucket";
                       ObjectKey := k_String k "conf.s3.object-key" |}) k.

(** [k.Load(file.Provider(path), json.Parser())]. *)
Definition load_file (path : string) : action :=
  k_Load (match file_ReadBytes path with
          | inl err => inl err
          | inr b => json_Unmarshal b
          end).

(** [k.Load(posflag.Provider(f, ".", k), nil)]. *)
Definition load_posflag (f : gmap string Flag) : action :=
  fun k => k_Load (inr (maps_Unflatten (posflag_Read f k))) k.

(** The inline configuration string, when there is one, is loaded and
    the command line is applied over it again. *)
Definition load_config_string (f : gmap string Flag) : action :=
  fun k =>
    let configString := k_String k "conf.string" in
    if (0 <? String.length configString)%nat then
      (check (k_Load (json_Unmarshal configString))
         wrap "error loading config string config";;
       check (load_posflag f) wrap "error loading command line config";;
       return_nil) k
    else return_nil k.

Definition applyOverrideOverrides (f : gmap string Flag) : action :=
  check (load_posflag f) wrap "error loading command line config";;
  check (load_config_string f);;
  check loadEnvironmentVariables wrap "error loading environment variables";;
  return_nil.

(** The S3 configuration, when a secret key is configured, followed by
    the overrides. *)
Definition load_s3_config (f : gmap string Flag) : action :=
  fun k =>
    if negb (String.length (k_String k "conf.s3.secret-key") =? 0)%nat then
      (check loadS3Variables wrap "error loading S3 settings";;
       check (applyOverrideOverrides f);;
       return_nil) k
    else return_nil k.

(** The local configuration file, when one is configured, followed by
    the overrides. *)
Definition load_config_file (f : gmap string Flag) : action :=
  fun k =>
    let configFile := k_String k "conf.file" in
    if (0 <? String.length configFile)%nat then
      (check (load_file configFile) wrap "error loading local config file";;
       check (applyOverrideOverrides f);;
       return_nil) k
    else return_nil k.

Definition applyOverrides (f : gmap string Flag) : action :=
  check (applyOverrideOverrides f);;
  check (load_s3_config f);;
  check (load_config_file f);;
  return_nil.

(** [BeginCommonParse]: the arguments are parsed into the flag set, a
    positional argument is refused, and the overrides are applied to a
    fresh [koanf.New(".")]. *)
Definition BeginCommonParse (f : gmap string Flag) (args : list string)
  : option (gmap string string) * option error :=
  match pflag_Parse f args with
  | inl err => (None, Some err)
  | inr (f, nArg) =>
      if negb (nArg =? 0)%nat then
        (None, Some (errors_New "unexpected number of parameters"))
      else
        match applyOverrides f ∅ with
        | (_, Some err) => (None, Some err)
        | (k, None) => (Some k, None)
        end
  end.

End WithProviders.

End ConfUtil.

(** ** The decoder of the wire format *)
Module Codec.

Import Das.

(** The decoding side of [blsSignatures]: the size of the fixed-size
    aggregate-signature encoding and the parser of such an encoding. *)
Class Decoding `{Imports} := {
  SignatureLength : nat;
  SignatureFromBytes : list byte -> option Signature
}.

(** The error kind of a failed decode, with its three causes and the
    rejection of bytes that are no signature. *)
Inductive MalformedCertificateError : Type :=
| Truncated
| UnknownHeaderFlag
| BadSignatureLength
| BadSignature.

(** Reading the next [n] bytes into an [[n]byte]; [None] when fewer are
    left. *)
Fixpoint read_array (n : nat) (l : list byte)
  : option (vec byte n * list byte) :=
  match n with
  | O => Some ([#], l)
  | S n' =>
      match l with
      | [] => None
      | b :: l' =>
          match read_array n' l' with
          | Some (v, rest) => Some (b ::: v, rest)
          | None => None
          end
      end
  end.

(** [binary.BigEndian.Uint64] of the next eight bytes. *)
Definition read_uint64 (l : list byte) : option (Z * list byte) :=
  match read_array 8 l with
  | Some (v, rest) => Some (be_value (vec_to_list v), rest)
  | None => None
  end.

Section WithDecoding.
Context `{Decoding}.

(** Modelled from the spec: [deserialize], the decoder of the certificate
    wire format, belongs to package [arbstate] and is not among the
    embedded files.  Following section 4.3 it reads the layout of
    [Serialize] back field by field, rejects a leading byte other than
    the header flag, fails on truncated input and on a signature encoding
    whose length is not the fixed one, and never parses partially. *)
Definition deserialize (bs : list byte)
  : MalformedCertificateError + DataAvailabilityCertificate :=
  match bs with
  | [] => inl Truncated
  | header :: rest =>
      if negb (Byte.eqb header DASMessageHeaderFlag) then inl UnknownHeaderFlag
      else
        match read_array 32 rest with
        | None => inl Truncated
        | Some (keysetHash, rest) =>
            match read_array 32 rest with
            | None => inl Truncated
            | Some (dataHash, rest) =>
                match read_uint64 rest with
                | None => inl Truncated
                | Some (timeout, rest) =>
                    match read_uint64 rest with
                    | None => inl Truncated
                    | Some (signersMask, rest) =>
                        if negb (length rest =? SignatureLength)%nat
                        then inl BadSignatureLength
                        else
                          match SignatureFromBytes rest with
                          | None => inl BadSignature
                          | Some sig =>
                              inr {| KeysetHash := keysetHash;
                                     DataHash := dataHash;
                                     Timeout := timeout;
                                     SignersMask := signersMask;
                                     Sig := sig |}
                          end
                    end
                end
            end
        end
  end.

(** A certificate as Go can hold it and as the codec can carry it: both
    integers are [uint64], and the signature has a fixed-size encoding
    that parses back to it. *)
Definition well_formed (c : DataAvailabilityCertificate) : Prop :=
  0 <= Timeout c < 2 ^ 64
  /\ 0 <= SignersMask c < 2 ^ 64
  /\ length (SignatureToBytes (Sig c)) = SignatureLength
  /\ SignatureFromBytes (SignatureToBytes (Sig c)) = Some (Sig c).

End WithDecoding.

End Codec.

(** ** The vocabulary of the properties *)
Module Terms.

Import Das ConfUtil.

Local Open Scope string_scope.

(** The parameters local-disk mode asks for: a data directory, and a key
    directory or an inline private key. *)
Definition local_disk_parameters_present (l : LocalDiskDASConfig) : Prop :=
  DataDir l <> "" /\ (KeyDir l <> "" \/ PrivKey l <> "").

Definition resolved {M : Type} (r : (M * option error) * list event) : Prop :=
  snd (fst r) = None.

(** The characters [encoding/hex] accepts. *)
Definition is_hex_digit (c : byte) : bool :=
  existsb (Byte.eqb c) (bytes_of_string "0123456789abcdefABCDEF").

(** Hexadecimal text that decodes: an even number of hex digits. *)
Definition valid_hex (src : list byte) : bool :=
  Nat.even (length src) && forallb is_hex_digit src.

(** The options of the loader itself. *)
Definition control_keys : list string :=
  [ "conf.string"; "conf.env-prefix"; "conf.file"; "conf.s3.secret-key";
    "conf.s3.access-key"; "conf.s3.region"; "conf.s3.bucket";
    "conf.s3.object-key" ].

(** A source that does not set the loader's own options. *)
Definition no_control (src : gmap string string) : bool :=
  forallb (fun key => negb (bool_decide (is_Some (src !! key)))) control_keys.

(** The first value in a list of lookups, weakest last. *)
Fixpoint first_set (layers : list (option string)) : option string :=
  match layers with
  | [] => None
  | Some v :: _ => Some v
  | None :: rest => first_set rest
  end.

(** Every flag with its current value: the defaults, and over them what
    the command line set. *)
Definition all_flags (f : gmap string Flag) : gmap string string :=
  Value <$> f.

(** The flags the command line set. *)
Definition set_flags (f : gmap string Flag) : gmap string string :=
  omap (fun fl => if Changed fl then Some (Value fl) else None) f.

(** The value of an option as the command line leaves it. *)
Definition option_of (f : gmap string Flag) (key : string) : string :=
  default "" (all_flags f !! key).

(** The keys of a flat map. *)
Definition keys (m : gmap string string) : list string :=
  map fst (map_to_list m).

(** No path of the list lies below another: the paths are leaves of one
    nested map. *)
Definition tidy (paths : list string) : bool :=
  forallb (fun p => forallb (fun q => negb (below p q)) paths) paths.

(** Every key of the map is among the paths. *)
Definition within (paths : list string) (m : gmap string string) : Prop :=
  forall key : string, is_Some (m !! key) -> In key paths.

Section Sources.
Context `{Providers}.
Variable f : gmap string Flag.

(** The sources the command line names; a source that is not named
    contributes nothing. *)
Definition env_source : gmap string string :=
  let envPrefix := option_of f "conf.env-prefix" in
  if negb (String.length envPrefix =? 0)%nat
  then env_Read (envPrefix +:+ "_") (env_key envPrefix) else ∅.

Definition string_source : error + gmap string string :=
  let configString := option_of f "conf.string" in
  if (0 <? String.length configString)%nat
  then json_Unmarshal configString else inr ∅.

Definition file_source : error + gmap string string :=
  let configFile := option_of f "conf.file" in
  if (0 <? String.length configFile)%nat then
    match file_ReadBytes configFile with
    | inl err => inl err
    | inr b => json_Unmarshal b
    end
  else inr ∅.

(** Every path the loader meets: its own options, the flags, and the
    keys of the three sources. *)
Definition universe (str file : gmap string string) : list string :=
  (control_keys ++ keys (all_flags f) ++ keys env_source
     ++ keys str ++ keys file)%list.

End Sources.

Section Invariants.
Context `{Providers}.
Variable f : gmap string Flag.

(** Every flag has its key in [k]. *)
Definition covers (k : gmap string string) : Prop :=
  forall key fl, f !! key = Some fl -> is_Some (k !! key).

(** [k] holds the loader's options as the command line leaves them. *)
Definition agrees (k : gmap string string) : Prop :=
  forall key, In key control_keys -> k !! key = all_flags f !! key.

(** The three strongest layers are already on top of [k]. *)
Definition settled (str k : gmap string string) : Prop :=
  env_source f ∪ (set_flags f ∪ (str ∪ k)) = k.

(** The state the loader keeps between its steps: keys among the given
    paths, a key for every flag, the loader's options as the command
    line leaves them. *)
Definition steady (paths : list string) (k : gmap string string) : Prop :=
  within paths k /\ covers k /\ agrees k.

End Invariants.

End Terms.

(** ** A concrete instance of the imported declarations

    A toy signature scheme with four-byte signatures, an aggregator
    configuration of a committee size and a backend list, and a small
    process environment; the examples below are evaluated on it. *)
Module Sample.

Import Das Codec ConfUtil.

Local Open Scope string_scope.

Definition imports : Imports := {|
  DASMessageHeaderFlag := x80;
  Signature := vec byte 4;
  SignatureToBytes := vec_to_list;
  AggregatorConfig := Z * string;
  DefaultAggregatorConfig := (0, "");
  AggregatorConfig_zero := (0, "")
|}.

Definition parse_signature (l : list byte) : option (vec byte 4) :=
  match read_array 4 l with
  | Some (v, []) => Some v
  | _ => None
  end.

Definition decoding : @Decoding imports :=
  @Build_Decoding imports 4%nat parse_signature.

Definition hash_of (b : byte) : vec byte 32 := vreplicate 32 b.

Definition cert : @DataAvailabilityCertificate imports :=
  @Build_DataAvailabilityCertificate imports
    (hash_of x11) (hash_of x22) 1700000000 1 [# xde; xad; xbe; xef].

(** A configuration with the given mode, local-disk parameters and
    aggregator parameters. *)
Definition config (mode : string) (l : LocalDiskDASConfig) (a : Z * string)
  : @DataAvailabilityConfig imports :=
  @Build_DataAvailabilityConfig imports mode l a "none".

Definition local_disk_config : @DataAvailabilityConfig imports :=
  config "local-disk"
    {| KeyDir := ""; PrivKey := "0xkey"; DataDir := "/data" |} (0, "").

Definition aggregator_default_config : @DataAvailabilityConfig imports :=
  config "aggregator" {| KeyDir := ""; PrivKey := ""; DataDir := "" |} (0, "").

Definition remote_config : @DataAvailabilityConfig imports :=
  config "remote"
    {| KeyDir := "/keys"; PrivKey := ""; DataDir := "/data" |}
    (3, "http://a,http://b").

(** A process environment, two configuration documents, and a command
    line parser that accepts "--key=value" arguments for known flags. *)
Definition parse_argument (f : gmap string Flag) (arg : string)
  : error + (gmap string Flag * nat) :=
  match cut_prefix arg "--" with
  | None => inr (f, 1%nat)
  | Some body =>
      match String.index 0 "=" body with
      | None => inl (errors_New "flag needs an argument")
      | Some n =>
          let name := String.substring 0 n body in
          let value :=
            String.substring (S n) (String.length body - S n) body in
          match f !! name with
          | None => inl (errors_New "unknown flag")
          | Some _ =>
              inr (<[name := {| Value := value; Changed := true |}]> f, 0%nat)
          end
      end
  end.

Fixpoint parse_arguments (f : gmap string Flag) (args : list string)
  : error + (gmap string Flag * nat) :=
  match args with
  | [] => inr (f, 0%nat)
  | arg :: rest =>
      match parse_argument f arg with
      | inl err => inl err
      | inr (f', n) =>
          match parse_arguments f' rest with
          | inl err => inl err
          | inr (f'', m) => inr (f'', (n + m)%nat)
          end
      end
  end.

Definition world : Providers := {|
  os_Environ :=
    [ ("NITRO_MODE", "local-disk");
      ("NITRO_LOCAL__DISK_DATA__DIR", "/env/data");
      ("HOME", "/root") ];
  json_Unmarshal := fun text =>
    if String.eqb text "inline-document" then
      inr {[ "mode" := "aggregator"; "store-signer" := "none";
             "local-disk.key-dir" := "/inline/keys" ]}
    else if String.eqb text "file-document" then
      inr {[ "store-signer" := "0xaa"; "local-disk.key-dir" := "/file/keys";
             "aggregator.backends" := "file-backends" ]}
    else inl (errors_New "invalid character");
  file_ReadBytes := fun path =>
    if String.eqb path "/etc/das.json" then inr "file-document"
    else inl (errors_New "no such file");
  s3_unsupported := errors_New "s3 provider does not support this method";
  unicode_ToLower := fun s => s;
  fmt_map := fun m => "map[]";
  pflag_Parse := parse_arguments;
  go_range := map_to_list;
  go_range_Permutation := fun m => Permutation_refl (map_to_list m)
|}.

Definition flag_default (v : string) : Flag :=
  {| Value := v; Changed := false |}.
Definition flag_set (v : string) : Flag :=
  {| Value := v; Changed := true |}.

(** A command line that names the environment, an inline string and a
    file. *)
Definition flags : gmap string Flag :=
  list_to_map
    [ ("mode", flag_default "onchain");
      ("store-signer", flag_default "");
      ("local-disk.data-dir", flag_set "/cli/data");
      ("local-disk.key-dir", flag_default "");
      ("aggregator.backends", flag_default "");
      ("aggregator.assumed-honest", flag_default "0");
      ("conf.env-prefix", flag_set "NITRO");
      ("conf.string", flag_set "inline-document");
      ("conf.file", flag_set "/etc/das.json");
      ("conf.s3.secret-key", flag_default "");
      ("conf.s3.access-key", flag_default "");
      ("conf.s3.region", flag_default "");
      ("conf.s3.bucket", flag_default "");
      ("conf.s3.object-key", flag_default "") ].

(** A command line that sets the mode and an environment prefix. *)
Definition flags_mode : gmap string Flag :=
  {[ "mode" := flag_set "aggregator";
     "conf.env-prefix" := flag_set "NITRO";
     "conf.string" := flag_default "";
     "conf.file" := flag_default "";
     "conf.s3.secret-key" := flag_default "" ]}.

(** The flag sets before parsing, every flag at its default, and the
    arguments that lead to [flags] and to [flags_mode]. *)
Definition flags_declared : gmap string Flag :=
  list_to_map
    [ ("mode", flag_default "onchain");
      ("store-signer", flag_default "");
      ("local-disk.data-dir", flag_default "");
      ("local-disk.key-dir", flag_default "");
      ("aggregator.backends", flag_default "");
      ("aggregator.assumed-honest", flag_default "0");
      ("conf.env-prefix", flag_default "");
      ("conf.string", flag_default "");
      ("conf.file", flag_default "");
      ("conf.s3.secret-key", flag_default "");
      ("conf.s3.access-key", flag_default "");
      ("conf.s3.region", flag_default "");
      ("conf.s3.bucket", flag_default "");
      ("conf.s3.object-key", flag_default "") ].

Definition args : list string :=
  [ "--local-disk.data-dir=/cli/data"; "--conf.env-prefix=NITRO";
    "--conf.string=inline-document"; "--conf.file=/etc/das.json" ].

Definition flags_mode_declared : gmap string Flag :=
  {[ "mode" := flag_default "onchain";
     "conf.env-prefix" := flag_default "";
     "conf.string" := flag_default "";
     "conf.file" := flag_default "";
     "conf.s3.secret-key" := flag_default "" ]}.

Definition args_mode : list string :=
  [ "--mode=aggregator"; "--conf.env-prefix=NITRO" ].

End Sample.

(** ** Further vocabulary: hexadecimal text of bytes, more samples *)
Module MoreTerms.

Import Das ConfUtil Terms.

Local Open Scope string_scope.

(** [encoding/hex]: [hextable] and [hex.Encode], two lower-case digits
    per byte, high nibble first. *)
Definition hextable : list byte := bytes_of_string "0123456789abcdef".

Definition hex_digit (n : Z) : byte := nth (Z.to_nat n) hextable x00.

Fixpoint hex_Encode (src : list byte) : list byte :=
  match src with
  | [] => []
  | v :: rest =>
      hex_digit (Z.shiftr (Z_of_byte v) 4)
        :: hex_digit (Z.land (Z_of_byte v) 15) :: hex_Encode rest
  end.

Definition hex_EncodeToString (src : list byte) : string :=
  string_of_list_byte (hex_Encode src).

(** [strings.ToLower] seen on the bytes of the text. *)
Definition lower_byte (b : byte) : byte :=
  byte_of_ascii (lower_ascii (ascii_of_byte b)).

(** The characters of a text. *)
Definition chars (s : string) : list ascii := list_ascii_of_string s.

(** An ASCII capital letter. *)
Definition is_upper (c : ascii) : bool :=
  let n := N_of_ascii c in ((65 <=? n) && (n <=? 90))%N.

(** The three messages [applyOverrides] wraps a failed load in. *)
Definition load_messages : list string :=
  [ "error loading config string config"; "error loading S3 settings";
    "error loading local config file" ].

(** An error one of the providers returned. *)
Definition provider_failure `{Providers} (err : error) : Prop :=
  (exists text, json_Unmarshal text = inl err)
  \/ (exists cfg, s3_Read cfg = inl err)
  \/ (exists path, file_ReadBytes path = inl err).

(** A provider's error wrapped in one of the three messages. *)
Definition load_failure `{Providers} (e : error) : Prop :=
  exists err msg,
    e = errors_Wrap err msg /\ In msg load_messages /\ provider_failure err.

(** The key holds the flag's value, or the environment under some
    prefix gives it another value, or the environment sets a path above
    or below it, which removes it. *)
Definition flag_or_environment `{Providers} (key : string) (fl : Flag)
    (k : gmap string string) : Prop :=
  k !! key = Some (Value fl)
  \/ exists envPrefix,
       envPrefix <> ""
       /\ ((exists v,
              maps_Unflatten
                (env_Read (envPrefix +:+ "_") (env_key envPrefix)) !! key
              = Some v
              /\ k !! key = Some v)
           \/ (clashes
                 (maps_Unflatten
                    (env_Read (envPrefix +:+ "_") (env_key envPrefix))) key
               = true
               /\ k !! key = None)).

(** A command line that names no source. *)
Definition flags_plain : gmap string Flag :=
  {[ "mode" := Sample.flag_set "local-disk";
     "local-disk.data-dir" := Sample.flag_set "/cli/data";
     "local-disk.key-dir" := Sample.flag_default "";
     "conf.env-prefix" := Sample.flag_default "";
     "conf.string" := Sample.flag_default "";
     "conf.file" := Sample.flag_default "";
     "conf.s3.secret-key" := Sample.flag_default "" ]}.

(** A command line whose inline configuration string does not parse. *)
Definition flags_bad_string : gmap string Flag :=
  {[ "mode" := Sample.flag_default "onchain";
     "conf.env-prefix" := Sample.flag_set "NITRO";
     "conf.string" := Sample.flag_set "{not json";
     "conf.file" := Sample.flag_set "/etc/das.json" ]}.

(** A command line with an S3 secret key. *)
Definition flags_s3 : gmap string Flag :=
  {[ "mode" := Sample.flag_default "onchain";
     "conf.env-prefix" := Sample.flag_set "NITRO";
     "conf.string" := Sample.flag_default "";
     "conf.file" := Sample.flag_set "/etc/das.json";
     "conf.s3.secret-key" := Sample.flag_set "secret";
     "conf.s3.bucket" := Sample.flag_set "das-config" ]}.

(** A command line with an inline string and an environment prefix. *)
Definition flags_inline : gmap string Flag :=
  {[ "mode" := Sample.flag_set "onchain";
     "store-signer" := Sample.flag_default "";
     "conf.env-prefix" := Sample.flag_set "NITRO";
     "conf.string" := Sample.flag_set "inline-document";
     "conf.file" := Sample.flag_default "";
     "conf.s3.secret-key" := Sample.flag_default "" ]}.

(** The flag sets before parsing and the arguments that lead to
    [flags_plain], [flags_bad_string] and [flags_s3]. *)
Definition flags_plain_declared : gmap string Flag :=
  {[ "mode" := Sample.flag_default "onchain";
     "local-disk.data-dir" := Sample.flag_default "";
     "local-disk.key-dir" := Sample.flag_default "";
     "conf.env-prefix" := Sample.flag_default "";
     "conf.string" := Sample.flag_default "";
     "conf.file" := Sample.flag_default "";
     "conf.s3.secret-key" := Sample.flag_default "" ]}.

Definition args_plain : list string :=
  [ "--mode=local-disk"; "--local-disk.data-dir=/cli/data" ].

Definition flags_bad_string_declared : gmap string Flag :=
  {[ "mode" := Sample.flag_default "onchain";
     "conf.env-prefix" := Sample.flag_default "";
     "conf.string" := Sample.flag_default "";
     "conf.file" := Sample.flag_default "" ]}.

Definition args_bad_string : list string :=
  [ "--conf.env-prefix=NITRO"; "--conf.string={not json";
    "--conf.file=/etc/das.json" ].

Definition flags_s3_declared : gmap string Flag :=
  {[ "mode" := Sample.flag_default "onchain";
     "conf.env-prefix" := Sample.flag_default "";
     "conf.string" := Sample.flag_default "";
     "conf.file" := Sample.flag_default "";
     "conf.s3.secret-key" := Sample.flag_default "";
     "conf.s3.bucket" := Sample.flag_default "" ]}.

Definition args_s3 : list string :=
  [ "--conf.env-prefix=NITRO"; "--conf.file=/etc/das.json";
    "--conf.s3.secret-key=secret"; "--conf.s3.bucket=das-config" ].

(** The sample certificate under another keyset, signer mask and
    signature. *)
Definition cert_resigned : @DataAvailabilityCertificate Sample.imports :=
  @Build_DataAvailabilityCertificate Sample.imports
    (Sample.hash_of x33) (Sample.hash_of x22) 1700000000 6
    [# x01; x02; x03; x04].

End MoreTerms.

(** * Properties *)

(** ** Bytes, big-endian integers, hexadecimal text *)
Module GoFacts.

Lemma Z_of_byte_range (b : byte) : 0 <= Z_of_byte b < 256.
Proof.
  unfold Z_of_byte. pose proof (Byte.to_N_bounded b) as Hb.
  split; [apply N2Z.is_nonneg | ].
  change 256 with (Z.of_N 256). apply N2Z.inj_lt. lia.
Qed.

Lemma Z_of_byte_of_Z (z : Z) : Z_of_byte (byte_of_Z z) = z mod 256.
Proof.
  unfold Z_of_byte, byte_of_Z.
  assert (Hr : 0 <= z mod 256 < 256) by (apply Z.mod_pos_bound; lia).
  destruct (Byte.of_N (Z.to_N (z mod 256))) as [b|] eqn:E.
  - apply Byte.to_of_N in E. rewrite E. rewrite Z2N.id; lia.
  - apply Byte.of_N_None_iff in E. lia.
Qed.

Lemma byte_of_Z_of_byte (b : byte) : byte_of_Z (Z_of_byte b) = b.
Proof.
  unfold byte_of_Z. rewrite Z.mod_small by apply Z_of_byte_range.
  unfold Z_of_byte. rewrite N2Z.id, Byte.of_to_N. reflexivity.
Qed.

Lemma length_PutUint64 (v : Z) : length (PutUint64 v) = 8%nat.
Proof. reflexivity. Qed.

(** Reading the eight bytes back gives the value modulo 2^64: the
    encoding is the big-endian one. *)
Lemma be_value_PutUint64 (v : Z) : be_value (PutUint64 v) = v mod 2 ^ 64.
Proof.
  unfold be_value, PutUint64. cbn [fold_left].
  rewrite !Z_of_byte_of_Z, !Z.shiftr_div_pow2 by lia.
  assert (Hs : forall a, a mod 256 = a - 256 * (a / 256))
    by (intros a; rewrite (Z.mod_eq a 256) by lia; reflexivity).
  rewrite !Hs, !Z.div_div by lia.
  rewrite (Z.mod_eq v (2 ^ 64)) by lia.
  change (2 ^ 56 * 256) with (2 ^ 64). change (2 ^ 48 * 256) with (2 ^ 56).
  change (2 ^ 40 * 256) with (2 ^ 48). change (2 ^ 32 * 256) with (2 ^ 40).
  change (2 ^ 24 * 256) with (2 ^ 32). change (2 ^ 16 * 256) with (2 ^ 24).
  change (2 ^ 8 * 256) with (2 ^ 16). change (v / 256) with (v / 2 ^ 8).
  generalize (v / 2 ^ 64) (v / 2 ^ 56) (v / 2 ^ 48) (v / 2 ^ 40)
    (v / 2 ^ 32) (v / 2 ^ 24) (v / 2 ^ 16) (v / 2 ^ 8).
  intros. lia.
Qed.

Lemma be_value_PutUint64_uint64 (v : Z) :
  0 <= v < 2 ^ 64 -> be_value (PutUint64 v) = v.
Proof. intros Hv. rewrite be_value_PutUint64. apply Z.mod_small, Hv. Qed.

Example PutUint64_1700000000 :
  PutUint64 1700000000 = [x00; x00; x00; x00; x65; x53; xf1; x00].
Proof. reflexivity. Qed.

Example PutUint64_wraps : PutUint64 (2 ^ 64 + 1) = PutUint64 1.
Proof. reflexivity. Qed.

Example hex_DecodeString_mixed_case :
  hex_DecodeString "0aFf10" = ([x0a; xff; x10], None).
Proof. reflexivity. Qed.

Example hex_DecodeString_odd_length :
  hex_DecodeString "abc" = ([xab], Some hex_ErrLength).
Proof. reflexivity. Qed.

Example hex_DecodeString_invalid_byte :
  hex_DecodeString "0g" = ([], Some (hex_InvalidByteError x67)).
Proof. reflexivity. Qed.

Example strings_TrimPrefix_0x :
  strings_TrimPrefix "0xab" "0x" = "ab"%string
  /\ strings_TrimPrefix "ab" "0x" = "ab"%string
  /\ strings_TrimPrefix "0" "0x" = "0"%string.
Proof. repeat split. Qed.

End GoFacts.

(** ** The wire format *)
Module WireFacts.

Import Das GoFacts.

Section WithImports.
Context `{Imports}.

Lemma length_serializeSignableFields (c : DataAvailabilityCertificate) :
  length (serializeSignableFields c) = 40%nat.
Proof.
  unfold serializeSignableFields. cbn [app].
  rewrite length_app, length_vec_to_list, length_PutUint64. reflexivity.
Qed.

Lemma Serialize_unfold (c : DataAvailabilityCertificate) :
  Serialize c =
  DASMessageHeaderFlag :: vec_to_list (KeysetHash c)
    ++ serializeSignableFields c
    ++ PutUint64 (SignersMask c) ++ SignatureToBytes (Sig c).
Proof.
  unfold Serialize. cbn [app]. rewrite <- !app_assoc. reflexivity.
Qed.

End WithImports.

(** C1: [Serialize c] is the header flag, the 32 bytes of [KeysetHash],
    the 32 bytes of [DataHash], [Timeout] as 8 bytes big-endian,
    [SignersMask] as 8 bytes big-endian and the encoding of [Sig], in
    that order and nothing else; its length is 81 plus the length of the
    signature encoding. *)
Theorem Serialize_layout `{Imports} (c : DataAvailabilityCertificate) :
  Serialize c =
    [DASMessageHeaderFlag] ++ vec_to_list (KeysetHash c)
      ++ vec_to_list (DataHash c) ++ PutUint64 (Timeout c)
      ++ PutUint64 (SignersMask c) ++ SignatureToBytes (Sig c)
  /\ length (vec_to_list (KeysetHash c)) = 32%nat
  /\ length (vec_to_list (DataHash c)) = 32%nat
  /\ length (PutUint64 (Timeout c)) = 8%nat
  /\ be_value (PutUint64 (Timeout c)) = Timeout c mod 2 ^ 64
  /\ length (PutUint64 (SignersMask c)) = 8%nat
  /\ be_value (PutUint64 (SignersMask c)) = SignersMask c mod 2 ^ 64
  /\ length (Serialize c) = (81 + length (SignatureToBytes (Sig c)))%nat.
Proof.
  repeat split;
    try apply length_vec_to_list; try apply be_value_PutUint64.
  - rewrite Serialize_unfold. unfold serializeSignableFields. cbn [app].
    rewrite <- !app_assoc. reflexivity.
  - rewrite Serialize_unfold. cbn [length].
    rewrite !length_app, length_vec_to_list, length_serializeSignableFields,
      length_PutUint64. lia.
Qed.

(** C2: the signable fields are the 40 bytes [DataHash] then [Timeout]
    big-endian (the last eight bytes, read most significant byte first,
    are the timeout); they depend on no other field, and they sit
    verbatim in [Serialize c] at offset 33, behind the header byte and
    [KeysetHash]. *)
Theorem serializeSignableFields_layout `{Imports}
    (c : DataAvailabilityCertificate) :
  serializeSignableFields c =
    vec_to_list (DataHash c) ++ PutUint64 (Timeout c)
  /\ length (serializeSignableFields c) = 40%nat
  /\ (forall c' : DataAvailabilityCertificate,
        DataHash c' = DataHash c -> Timeout c' = Timeout c ->
        serializeSignableFields c' = serializeSignableFields c)
  /\ take 40 (drop 33 (Serialize c)) = serializeSignableFields c
  /\ Serialize c =
       ([DASMessageHeaderFlag] ++ vec_to_list (KeysetHash c))
         ++ serializeSignableFields c
         ++ (PutUint64 (SignersMask c) ++ SignatureToBytes (Sig c))
  /\ length ([DASMessageHeaderFlag] ++ vec_to_list (KeysetHash c)) = 33%nat
  /\ take 32 (serializeSignableFields c) = vec_to_list (DataHash c)
  /\ drop 32 (serializeSignableFields c) = PutUint64 (Timeout c)
  /\ length (drop 32 (serializeSignableFields c)) = 8%nat
  /\ be_value (drop 32 (serializeSignableFields c)) = Timeout c mod 2 ^ 64.
Proof.
  assert (Hpre : length (DASMessageHeaderFlag :: vec_to_list (KeysetHash c))
                 = 33%nat)
    by (cbn [length]; rewrite length_vec_to_list; reflexivity).
  assert (Hhash : length (vec_to_list (DataHash c)) = 32%nat)
    by apply length_vec_to_list.
  assert (Htake : take 32 (serializeSignableFields c)
                  = vec_to_list (DataHash c))
    by (unfold serializeSignableFields; cbn [app];
        apply take_app_length'; symmetry; exact Hhash).
  assert (Hdrop : drop 32 (serializeSignableFields c)
                  = PutUint64 (Timeout c))
    by (unfold serializeSignableFields; cbn [app];
        apply drop_app_length'; symmetry; exact Hhash).
  repeat split;
    try exact Htake; try exact Hdrop;
    try (rewrite Hdrop; apply length_PutUint64);
    try (rewrite Hdrop; apply be_value_PutUint64).
  - apply length_serializeSignableFields.
  - intros c' Hd Ht. unfold serializeSignableFields. rewrite Hd, Ht.
    reflexivity.
  - rewrite Serialize_unfold.
    change (DASMessageHeaderFlag :: vec_to_list (KeysetHash c) ++ ?r)
      with ((DASMessageHeaderFlag :: vec_to_list (KeysetHash c)) ++ r).
    rewrite drop_app_length' by (symmetry; exact Hpre).
    rewrite take_app_length' by (symmetry; apply length_serializeSignableFields).
    reflexivity.
  - rewrite Serialize_unfold. reflexivity.
  - exact Hpre.
Qed.

Example Serialize_sample :
  Serialize Sample.cert
  = [x80] ++ replicate 32 x11 ++ replicate 32 x22
      ++ [x00; x00; x00; x00; x65; x53; xf1; x00]
      ++ [x00; x00; x00; x00; x00; x00; x00; x01]
      ++ [xde; xad; xbe; xef].
Proof. reflexivity. Qed.

End WireFacts.

(** ** Decoding what [Serialize] wrote *)
Module CodecFacts.

Import Das Codec GoFacts WireFacts.

Lemma read_array_app {n} (v : vec byte n) (rest : list byte) :
  read_array n (vec_to_list v ++ rest) = Some (v, rest).
Proof.
  induction v as [|b n v IH]; cbn [read_array vec_to_list app].
  - reflexivity.
  - rewrite IH. reflexivity.
Qed.

Lemma read_array_Some n (l : list byte) (v : vec byte n) (rest : list byte) :
  read_array n l = Some (v, rest) -> l = vec_to_list v ++ rest.
Proof.
  revert l v rest. induction n as [|n IH]; intros l v rest; cbn [read_array].
  - intros [= <- <-]. reflexivity.
  - destruct l as [|b l]; [discriminate|].
    destruct (read_array n l) as [[w r]|] eqn:E; [|discriminate].
    intros [= <- <-]. apply IH in E. subst l. reflexivity.
Qed.

Lemma read_array_length n (l : list byte) (v : vec byte n) (rest : list byte) :
  read_array n l = Some (v, rest) -> length l = (n + length rest)%nat.
Proof.
  intros E. apply read_array_Some in E. subst l.
  rewrite length_app, length_vec_to_list. reflexivity.
Qed.

Lemma read_uint64_PutUint64 (v : Z) (rest : list byte) :
  read_uint64 (PutUint64 v ++ rest) = Some (v mod 2 ^ 64, rest).
Proof.
  unfold read_uint64.
  change (PutUint64 v ++ rest)
    with (vec_to_list (array_of_list 8 (PutUint64 v)) ++ rest).
  rewrite read_array_app. rewrite <- be_value_PutUint64. reflexivity.
Qed.

Lemma read_uint64_length (l : list byte) (v : Z) (rest : list byte) :
  read_uint64 l = Some (v, rest) -> length l = (8 + length rest)%nat.
Proof.
  unfold read_uint64.
  destruct (read_array 8 l) as [[w r]|] eqn:E; [|discriminate].
  intros [= _ <-]. eapply read_array_length, E.
Qed.

Section WithDecoding.
Context `{Decoding}.

Lemma deserialize_inr_length (bs : list byte)
    (c : DataAvailabilityCertificate) :
  deserialize bs = inr c -> length bs = (81 + SignatureLength)%nat.
Proof.
  unfold deserialize. destruct bs as [|header rest]; [discriminate|].
  destruct (negb (Byte.eqb header DASMessageHeaderFlag)); [discriminate|].
  destruct (read_array 32 rest) as [[k r1]|] eqn:E1; [|discriminate].
  destruct (read_array 32 r1) as [[d r2]|] eqn:E2; [|discriminate].
  destruct (read_uint64 r2) as [[t r3]|] eqn:E3; [|discriminate].
  destruct (read_uint64 r3) as [[m r4]|] eqn:E4; [|discriminate].
  destruct (length r4 =? SignatureLength)%nat eqn:E5;
    cbn [negb]; [|discriminate].
  intros _. apply Nat.eqb_eq in E5.
  apply read_array_length in E1, E2. apply read_uint64_length in E3, E4.
  cbn [length]. lia.
Qed.

Lemma deserialize_Serialize (c : DataAvailabilityCertificate) :
  well_formed c -> deserialize (Serialize c) = inr c.
Proof.
  intros (Ht & Hm & Hlen & Hsig).
  rewrite Serialize_unfold. unfold deserialize, serializeSignableFields.
  cbn [app]. rewrite (Byte.byte_dec_lb eq_refl). cbn [negb].
  rewrite read_array_app. rewrite <- app_assoc, read_array_app.
  rewrite !read_uint64_PutUint64.
  rewrite Hlen, Nat.eqb_refl. cbn [negb]. rewrite Hsig.
  rewrite !Z.mod_small by assumption. destruct c; reflexivity.
Qed.

End WithDecoding.

(** C3: decoding inverts [Serialize] on every well-formed certificate,
    and the decoder, a total function, answers with an error on every
    proper prefix of an encoding and on any input shorter than a full
    certificate (truncation), on a leading byte that is not the header
    flag, and on any input whose signature part has not the fixed
    length. *)
Theorem deserialize_inverts_Serialize `{Decoding}
    (c : DataAvailabilityCertificate) (Hwf : well_formed c) :
  deserialize (Serialize c) = inr c
  /\ (forall n : nat, (n < length (Serialize c))%nat ->
        exists e, deserialize (take n (Serialize c)) = inl e)
  /\ (forall bs : list byte, (length bs < 81 + SignatureLength)%nat ->
        exists e, deserialize bs = inl e)
  /\ (forall (header : byte) (rest : list byte),
        header <> DASMessageHeaderFlag ->
        deserialize (header :: rest) = inl UnknownHeaderFlag)
  /\ (forall bs : list byte, length bs <> (81 + SignatureLength)%nat ->
        exists e, deserialize bs = inl e).
Proof.
  assert (Hbad : forall bs : list byte,
             length bs <> (81 + SignatureLength)%nat ->
             exists e, deserialize bs = inl e).
  { intros bs Hne. destruct (deserialize bs) as [e|c'] eqn:E; [eauto|].
    apply deserialize_inr_length in E. contradiction. }
  assert (Hlen : length (Serialize c) = (81 + SignatureLength)%nat).
  { eapply deserialize_inr_length, deserialize_Serialize, Hwf. }
  split; [apply deserialize_Serialize, Hwf|].
  split; [intros n Hn; apply Hbad; rewrite length_take; lia|].
  split; [intros bs Hn; apply Hbad; lia|].
  split; [|exact Hbad].
  intros header rest Hne. unfold deserialize.
  destruct (Byte.eqb header DASMessageHeaderFlag) eqn:E; [|reflexivity].
  apply Byte.byte_dec_bl in E. contradiction.
Qed.

(** The sample certificate is well formed, and the theorem applies to it. *)
Lemma deserialize_inverts_Serialize_witness :
  @well_formed _ Sample.decoding Sample.cert
  /\ @deserialize _ Sample.decoding (Serialize Sample.cert) = inr Sample.cert.
Proof.
  assert (Hwf : @well_formed _ Sample.decoding Sample.cert).
  { unfold well_formed. cbn. repeat split; try lia; reflexivity. }
  split; [exact Hwf|].
  exact (proj1 (@deserialize_inverts_Serialize _ Sample.decoding
                  Sample.cert Hwf)).
Defined.

End CodecFacts.

(** ** Mode selection *)
Module ModeFacts.

Import Das Terms.

Lemma local_disk_guard (l : LocalDiskDASConfig) :
  String.eqb (DataDir l) ""
    || (String.eqb (KeyDir l) "" && String.eqb (PrivKey l) "") = false
  <-> local_disk_parameters_present l.
Proof.
  unfold local_disk_parameters_present.
  destruct (String.eqb_spec (DataDir l) ""), (String.eqb_spec (KeyDir l) ""),
    (String.eqb_spec (PrivKey l) ""); cbn; intuition congruence.
Qed.

(** C5: with mode "local-disk", resolution succeeds with the local-disk
    mode exactly when data-dir is non-empty and key-dir or the inline
    private key is non-empty; otherwise it prints the usage text and
    returns the missing-parameters error. *)
Theorem Mode_local_disk `{Imports} (c : DataAvailabilityConfig)
    (out : list event) (Hmode : ModeImpl c = "local-disk") :
  (local_disk_parameters_present (LocalDiskDASConfig_ c) ->
     Mode c out = ((LocalDiskDataAvailability, None), out))
  /\ (~ local_disk_parameters_present (LocalDiskDASConfig_ c) ->
        Mode c out =
          ((0, Some (errors_New "--data-availability.local-disk.data-dir and .key-dir must be specified if mode is set to local")),
           out ++ [flag_Usage]))
  /\ (resolved (Mode c out)
      <-> local_disk_parameters_present (LocalDiskDASConfig_ c)).
Proof.
  pose proof (local_disk_guard (LocalDiskDASConfig_ c)) as Hg.
  unfold resolved, Mode. rewrite Hmode. cbn [String.eqb Ascii.eqb Bool.eqb
    OnchainDataAvailabilityString LocalDiskDataAvailabilityString].
  destruct (String.eqb (DataDir (LocalDiskDASConfig_ c)) ""
            || (String.eqb (KeyDir (LocalDiskDASConfig_ c)) ""
                && String.eqb (PrivKey (LocalDiskDASConfig_ c)) "")) eqn:E.
  - assert (Hno : ~ local_disk_parameters_present (LocalDiskDASConfig_ c))
      by (intros Hp; apply Hg in Hp; discriminate).
    cbn. intuition discriminate.
  - assert (Hyes : local_disk_parameters_present (LocalDiskDASConfig_ c))
      by (apply Hg; reflexivity).
    cbn. intuition.
Qed.

Lemma Mode_local_disk_witness :
  ModeImpl Sample.local_disk_config = "local-disk"%string
  /\ local_disk_parameters_present
       (LocalDiskDASConfig_ Sample.local_disk_config)
  /\ Mode Sample.local_disk_config []
     = ((LocalDiskDataAvailability, None), []).
Proof.
  assert (Hp : local_disk_parameters_present
                 (LocalDiskDASConfig_ Sample.local_disk_config))
    by (split; cbn; [discriminate | right; discriminate]).
  split; [reflexivity|]. split; [exact Hp|].
  exact (proj1 (@Mode_local_disk Sample.imports Sample.local_disk_config []
                  eq_refl) Hp).
Defined.

(** C6: with mode "aggregator", resolution succeeds with the aggregator
    mode exactly when the aggregator configuration differs from
    [DefaultAggregatorConfig]; with the default one it prints the usage
    text and returns an error that names the aggregator section. *)
Theorem Mode_aggregator `{Imports} (c : DataAvailabilityConfig)
    (out : list event) (Hmode : ModeImpl c = "aggregator") :
  (AggregatorConfig_ c <> DefaultAggregatorConfig ->
     Mode c out = ((AggregatorDataAvailability, None), out))
  /\ (AggregatorConfig_ c = DefaultAggregatorConfig ->
        Mode c out =
          ((0, Some (errors_New ("--data-availability.aggregator" +:+ ".X config options must be specified if mode is set to aggregator"))),
           out ++ [flag_Usage]))
  /\ (resolved (Mode c out)
      <-> AggregatorConfig_ c <> DefaultAggregatorConfig).
Proof.
  unfold resolved, Mode. rewrite Hmode. cbn [String.eqb Ascii.eqb Bool.eqb
    OnchainDataAvailabilityString LocalDiskDataAvailabilityString
    AggregatorDataAvailabilityString].
  destruct (bool_decide_reflect (AggregatorConfig_ c = DefaultAggregatorConfig))
    as [Heq|Hne]; cbn.
  - intuition discriminate.
  - intuition.
Qed.

Lemma Mode_aggregator_witness :
  ModeImpl Sample.aggregator_default_config = "aggregator"%string
  /\ AggregatorConfig_ Sample.aggregator_default_config
     = @DefaultAggregatorConfig Sample.imports
  /\ Mode Sample.aggregator_default_config []
     = ((0, Some (errors_New "--data-availability.aggregator.X config options must be specified if mode is set to aggregator")),
        [flag_Usage]).
Proof.
  split; [reflexivity|]. split; [reflexivity|].
  exact (proj1 (proj2 (@Mode_aggregator Sample.imports
                         Sample.aggregator_default_config [] eq_refl))
           eq_refl).
Defined.

(** C7: a mode string other than "onchain", "local-disk" and "aggregator"
    never resolves: the result carries an error; the empty string is
    reported as missing, and any other string is quoted in the message,
    after the usage text has been printed. *)
Theorem Mode_unrecognized `{Imports} (c : DataAvailabilityConfig)
    (out : list event)
    (Hon : ModeImpl c <> "onchain") (Hld : ModeImpl c <> "local-disk")
    (Hag : ModeImpl c <> "aggregator") :
  ~ resolved (Mode c out)
  /\ (exists e, snd (fst (Mode c out)) = Some e)
  /\ (ModeImpl c = "" ->
        Mode c out =
          ((0, Some (errors_New "--data-availability.mode missing")), out))
  /\ (ModeImpl c <> "" ->
        Mode c out =
          ((0, Some (errors_New ("--data-availability.mode " +:+ ModeImpl c
                                   +:+ " not recognized"))),
           out ++ [flag_Usage])).
Proof.
  unfold resolved, Mode, OnchainDataAvailabilityString,
    LocalDiskDataAvailabilityString, AggregatorDataAvailabilityString.
  destruct (String.eqb_spec (ModeImpl c) "") as [He|He].
  - cbn. repeat split; [discriminate | eauto | contradiction].
  - destruct (String.eqb_spec (ModeImpl c) "onchain"); [contradiction|].
    destruct (String.eqb_spec (ModeImpl c) "local-disk"); [contradiction|].
    destruct (String.eqb_spec (ModeImpl c) "aggregator"); [contradiction|].
    cbn. repeat split; [discriminate | eauto | contradiction].
Qed.

Lemma Mode_unrecognized_witness :
  ModeImpl Sample.remote_config <> "onchain"%string
  /\ ModeImpl Sample.remote_config <> "local-disk"%string
  /\ ModeImpl Sample.remote_config <> "aggregator"%string
  /\ Mode Sample.remote_config []
     = ((0, Some (errors_New "--data-availability.mode remote not recognized")),
        [flag_Usage]).
Proof.
  assert (H1 : ModeImpl Sample.remote_config <> "onchain"%string)
    by discriminate.
  assert (H2 : ModeImpl Sample.remote_config <> "local-disk"%string)
    by discriminate.
  assert (H3 : ModeImpl Sample.remote_config <> "aggregator"%string)
    by discriminate.
  repeat (split; [assumption|]).
  apply (@Mode_unrecognized Sample.imports Sample.remote_config [] H1 H2 H3).
  discriminate.
Defined.

End ModeFacts.

(** ** The store-signer address resolver *)
Module AddressFacts.

Import Das Terms GoFacts.

Lemma reverseHexTable_digit (c : byte) :
  (reverseHexTable c >? 15) = negb (is_hex_digit c).
Proof. destruct c; reflexivity. Qed.

(** Induction two elements at a time, the way the decoding loop walks. *)
Lemma list_pair_ind {A} (P : list A -> Prop) :
  P [] -> (forall a, P [a]) -> (forall a b l, P l -> P (a :: b :: l)) ->
  forall l, P l.
Proof.
  intros H0 H1 H2 l.
  enough (P l /\ forall a, P (a :: l)) by tauto.
  induction l as [|b l [IH1 IH2]]; split; auto.
Qed.

Lemma hex_Decode_valid (src : list byte) :
  valid_hex src = true ->
  snd (hex_Decode src) = None
  /\ length (fst (hex_Decode src)) = Nat.div2 (length src).
Proof.
  unfold valid_hex. induction src as [| a | a b l IH] using list_pair_ind.
  - intros _. split; reflexivity.
  - discriminate.
  - cbn [length Nat.even forallb hex_Decode Nat.div2].
    rewrite !reverseHexTable_digit.
    destruct (is_hex_digit a), (is_hex_digit b); cbn [negb andb];
      rewrite ?andb_false_r; try discriminate.
    intros Hv. destruct (IH Hv) as [He Hl].
    destruct (hex_Decode l) as [o e]. cbn in *. split; congruence.
Qed.

Lemma hex_Decode_invalid (src : list byte) :
  valid_hex src = false ->
  snd (hex_Decode src) = Some hex_ErrLength
  \/ exists b, snd (hex_Decode src) = Some (hex_InvalidByteError b).
Proof.
  unfold valid_hex. induction src as [| a | a b l IH] using list_pair_ind.
  - discriminate.
  - intros _. cbn [hex_Decode].
    destruct (reverseHexTable a >? 15); cbn; eauto.
  - cbn [length Nat.even forallb hex_Decode].
    rewrite !reverseHexTable_digit.
    destruct (is_hex_digit a); cbn [negb andb]; [|intros _; cbn; eauto].
    destruct (is_hex_digit b); cbn [negb andb]; [|intros _; cbn; eauto].
    intros Hv. specialize (IH Hv).
    destruct (hex_Decode l) as [o e]. exact IH.
Qed.

Lemma vec_to_list_array_of_list (n : nat) (l : list byte) :
  length l = n -> vec_to_list (array_of_list n l) = l.
Proof.
  revert l. induction n as [|n IH]; intros [|b l] Hl; try discriminate.
  - reflexivity.
  - cbn. f_equal. apply IH. cbn in Hl. lia.
Qed.

(** The address keeps the last twenty bytes of a long slice and pads a
    short one with zero bytes on the left. *)
Lemma BytesToAddress_bytes (b : list byte) :
  vec_to_list (BytesToAddress b) =
  if (AddressLength <? length b)%nat
  then drop (length b - AddressLength) b
  else replicate (AddressLength - length b) x00 ++ b.
Proof.
  unfold BytesToAddress.
  destruct (Nat.ltb_spec AddressLength (length b)) as [Hlt|Hge].
  - rewrite vec_to_list_array_of_list.
    + rewrite length_drop.
      replace (AddressLength - (length b - (length b - AddressLength)))%nat
        with 0%nat by lia.
      reflexivity.
    + rewrite length_app, length_replicate, length_drop. lia.
  - rewrite vec_to_list_array_of_list; [reflexivity|].
    rewrite length_app, length_replicate. lia.
Qed.

Lemma resolver_not_none (s : string) :
  s <> "none"%string ->
  StoreSignerAddressFromString s =
  match hex_DecodeString (strings_TrimPrefix s "0x") with
  | (_, Some e) => (None, Some e)
  | (addrBytes, None) => (Some (BytesToAddress addrBytes), None)
  end.
Proof.
  intros Hs. unfold StoreSignerAddressFromString.
  destruct (String.eqb_spec s "none"); [contradiction|].
  destruct (hex_DecodeString _) as [bs [e|]]; reflexivity.
Qed.

(** C4, as the code has it: "none", and only "none", yields no address
    and no error; any other input loses an optional "0x" and is decoded
    as hexadecimal text; text of odd length or with a character that is
    no hex digit yields a decode error and no address; text that decodes
    yields an address of twenty bytes whatever the number of decoded
    bytes, which are the address itself when there are twenty of them.
    The decoded length is not checked. *)
Theorem StoreSignerAddress_resolver (s : string) :
  (StoreSignerAddressFromString s = (None, None) <-> s = "none"%string)
  /\ (s <> "none"%string ->
      valid_hex (bytes_of_string (strings_TrimPrefix s "0x")) = false ->
      exists e,
        StoreSignerAddressFromString s = (None, Some e)
        /\ (e = hex_ErrLength \/ exists b, e = hex_InvalidByteError b))
  /\ (s <> "none"%string ->
      valid_hex (bytes_of_string (strings_TrimPrefix s "0x")) = true ->
      exists addrBytes,
        hex_DecodeString (strings_TrimPrefix s "0x") = (addrBytes, None)
        /\ StoreSignerAddressFromString s
           = (Some (BytesToAddress addrBytes), None)
        /\ length (vec_to_list (BytesToAddress addrBytes)) = 20%nat
        /\ (length addrBytes = 20%nat ->
            vec_to_list (BytesToAddress addrBytes) = addrBytes)).
Proof.
  split; [split|split].
  - intros Hr. destruct (String.eqb_spec s "none") as [|Hne]; [assumption|].
    rewrite (resolver_not_none s Hne) in Hr.
    destruct (hex_DecodeString _) as [bs [e|]]; discriminate.
  - intros ->. reflexivity.
  - intros Hne Hv. rewrite (resolver_not_none s Hne).
    apply hex_Decode_invalid in Hv. unfold hex_DecodeString.
    destruct (hex_Decode _) as [bs [e|]]; cbn in Hv.
    + exists e. split; [reflexivity|].
      destruct Hv as [[= ->]|[b [= ->]]]; eauto.
    + destruct Hv as [Hv|[b Hv]]; discriminate.
  - intros Hne Hv. rewrite (resolver_not_none s Hne).
    apply hex_Decode_valid in Hv as [He _]. unfold hex_DecodeString.
    destruct (hex_Decode _) as [bs [e|]]; cbn in He; [discriminate|].
    exists bs. repeat split.
    + apply length_vec_to_list.
    + intros Hl. rewrite BytesToAddress_bytes, Hl. reflexivity.
Qed.

(** Against C4 as the specification words it: "0x01" decodes to a single
    byte, and the resolver returns an address for it without any error. *)
Lemma StoreSignerAddress_length_unchecked :
  "0x01"%string <> "none"%string
  /\ hex_DecodeString (strings_TrimPrefix "0x01" "0x") = ([x01], None)
  /\ length [x01] <> 20%nat
  /\ StoreSignerAddressFromString "0x01"
     = (Some (array_of_list 20 (replicate 19 x00 ++ [x01])), None).
Proof. repeat split; try discriminate. Qed.

(** C9: the empty string is not the sentinel: it decodes to no bytes and
    resolves to the all-zero address with no error; and the empty string
    is the default value of the store-signer option. *)
Theorem StoreSignerAddress_empty_string `{Imports} :
  StoreSignerAddress DefaultDataAvailabilityConfig = ""%string
  /\ hex_DecodeString (strings_TrimPrefix "" "0x") = ([], None)
  /\ StoreSignerAddressFromString "" = (Some (vreplicate 20 x00), None)
  /\ StoreSignerAddressFromString (StoreSignerAddress DefaultDataAvailabilityConfig)
     <> (None, None).
Proof. repeat split. discriminate. Qed.

(** C10: whenever the text after the optional "0x" is an even number of
    hex digits, the resolver succeeds, whatever the number of decoded
    bytes: more than twenty are cut down to the last twenty, fewer are
    padded with zero bytes on the left. *)
Theorem StoreSignerAddress_any_length (s : string)
    (Hs : s <> "none"%string)
    (Hhex : valid_hex (bytes_of_string (strings_TrimPrefix s "0x")) = true) :
  exists addrBytes,
    hex_DecodeString (strings_TrimPrefix s "0x") = (addrBytes, None)
    /\ length addrBytes
       = Nat.div2 (length (bytes_of_string (strings_TrimPrefix s "0x")))
    /\ StoreSignerAddressFromString s
       = (Some (BytesToAddress addrBytes), None)
    /\ ((20 < length addrBytes)%nat ->
        vec_to_list (BytesToAddress addrBytes)
        = drop (length addrBytes - 20) addrBytes)
    /\ ((length addrBytes <= 20)%nat ->
        vec_to_list (BytesToAddress addrBytes)
        = replicate (20 - length addrBytes) x00 ++ addrBytes).
Proof.
  rewrite (resolver_not_none s Hs).
  apply hex_Decode_valid in Hhex as [He Hl]. unfold hex_DecodeString.
  destruct (hex_Decode _) as [bs [e|]]; cbn in He, Hl; [discriminate|].
  exists bs. repeat split; [exact Hl| |].
  - intros Hlt. rewrite BytesToAddress_bytes.
    destruct (Nat.ltb_spec AddressLength (length bs)); [reflexivity|].
    unfold AddressLength in *. lia.
  - intros Hle. rewrite BytesToAddress_bytes.
    destruct (Nat.ltb_spec AddressLength (length bs)); [|reflexivity].
    unfold AddressLength in *. lia.
Qed.

(** Twenty-two bytes of hex text: the first two are dropped. *)
Lemma StoreSignerAddress_any_length_witness :
  "0xaabb0102030405060708090a0b0c0d0e0f1011121314"%string <> "none"%string
  /\ valid_hex (bytes_of_string
                  (strings_TrimPrefix
                     "0xaabb0102030405060708090a0b0c0d0e0f1011121314" "0x"))
     = true
  /\ exists addrBytes,
       length addrBytes = 22%nat
       /\ StoreSignerAddressFromString
            "0xaabb0102030405060708090a0b0c0d0e0f1011121314"
          = (Some (BytesToAddress addrBytes), None)
       /\ vec_to_list (BytesToAddress addrBytes) = drop 2 addrBytes.
Proof.
  assert (Hs : "0xaabb0102030405060708090a0b0c0d0e0f1011121314"%string
               <> "none"%string) by discriminate.
  assert (Hhex : valid_hex (bytes_of_string
                   (strings_TrimPrefix
                      "0xaabb0102030405060708090a0b0c0d0e0f1011121314" "0x"))
                 = true) by (vm_compute; reflexivity).
  split; [exact Hs|]. split; [exact Hhex|].
  destruct (StoreSignerAddress_any_length _ Hs Hhex)
    as (bs & _ & Hl & Hr & Hlong & _).
  assert (Hl22 : length bs = 22%nat) by (rewrite Hl; vm_compute; reflexivity).
  exists bs. split; [exact Hl22|]. split; [exact Hr|].
  rewrite Hlong by (rewrite Hl22; lia). rewrite Hl22. reflexivity.
Defined.

End AddressFacts.

(** ** The order in which the configuration sources win *)
Module ConfFacts.

Import ConfUtil Terms.

Local Open Scope string_scope.

(** Equalities between stacks of layers are settled key by key. *)
Ltac layers_eq :=
  apply map_eq; intros ?key; rewrite ?lookup_union, ?lookup_empty;
  repeat match goal with
         | |- context [?m !! ?key] => destruct (m !! key)
         end;
  reflexivity.

Example env_key_nested :
  @env_key Sample.world "NITRO" "NITRO_LOCAL__DISK_DATA__DIR"
  = "local-disk.data-dir".
Proof. reflexivity. Qed.

Example strings_ReplaceAll_leftmost :
  strings_ReplaceAll "a___b" "__" "-" = "a-_b".
Proof. reflexivity. Qed.

Example env_Read_sample :
  @env_Read Sample.world "NITRO_" (@env_key Sample.world "NITRO")
  = {[ "mode" := "local-disk"; "local-disk.data-dir" := "/env/data" ]}.
Proof. vm_compute. reflexivity. Qed.

(** A leaf put over a nested map replaces all of it. *)
Example maps_Merge_leaf_over_map :
  maps_Merge {[ "local-disk" := "x" ]}
    {[ "local-disk.data-dir" := "/d"; "local-disk.key-dir" := "/k";
       "mode" := "onchain" ]}
  = {[ "local-disk" := "x"; "mode" := "onchain" ]}.
Proof. vm_compute. reflexivity. Qed.

(** A nested map put over a leaf replaces it. *)
Example maps_Merge_map_over_leaf :
  maps_Merge {[ "local-disk.data-dir" := "/d" ]}
    {[ "local-disk" := "x"; "mode" := "onchain" ]}
  = {[ "local-disk.data-dir" := "/d"; "mode" := "onchain" ]}.
Proof. vm_compute. reflexivity. Qed.

(** Two nested maps are merged leaf by leaf. *)
Example maps_Merge_map_over_map :
  maps_Merge {[ "local-disk.data-dir" := "/d" ]}
    {[ "local-disk.data-dir" := "/old"; "local-disk.key-dir" := "/k" ]}
  = {[ "local-disk.data-dir" := "/d"; "local-disk.key-dir" := "/k" ]}.
Proof. vm_compute. reflexivity. Qed.

Example maps_Unflatten_leaves :
  @maps_Unflatten Sample.world
    {[ "local-disk.data-dir" := "/d"; "mode" := "onchain" ]}
  = {[ "local-disk.data-dir" := "/d"; "mode" := "onchain" ]}.
Proof. vm_compute. reflexivity. Qed.

(** With a key below another key the order of the visit shows: the
    scalar first, the part that names it is skipped and the value lands
    at the root; the scalar last, it replaces the nested map. *)
Example unflatten_assign_order :
  unflatten_assign (unflatten_assign ∅ "a" "1") "a.b" "2"
  = {[ "a" := "1"; "b" := "2" ]}
  /\ unflatten_assign (unflatten_assign ∅ "a.b" "2") "a" "1"
     = {[ "a" := "1" ]}.
Proof. split; vm_compute; reflexivity. Qed.

(** With the scalar of the environment over the flags of a nested map,
    the flags' keys are gone from the configuration. *)
Example environment_scalar_over_flags :
  fst (@applyOverrides
         {| os_Environ := [ ("NITRO_LOCAL__DISK", "x") ];
            json_Unmarshal := fun _ => inl (errors_New "invalid character");
            file_ReadBytes := fun _ => inl (errors_New "no such file");
            s3_unsupported := errors_New "unsupported";
            unicode_ToLower := fun s => s;
            fmt_map := fun _ => "map[]";
            pflag_Parse := fun f _ => inr (f, 0%nat);
            go_range := map_to_list;
            go_range_Permutation := fun m => Permutation_refl _ |}
         {[ "local-disk.data-dir" := Sample.flag_set "/cli/data";
            "local-disk.key-dir" := Sample.flag_default "";
            "conf.env-prefix" := Sample.flag_set "NITRO" ]} ∅)
  = {[ "local-disk" := "x"; "conf.env-prefix" := "NITRO" ]}.
Proof. vm_compute. reflexivity. Qed.

Lemma append_assoc (a b c : string) : (a +:+ b) +:+ c = a +:+ (b +:+ c).
Proof.
  induction a as [|x a IH]; [reflexivity|].
  change (String x ((a +:+ b) +:+ c) = String x (a +:+ (b +:+ c))).
  rewrite IH. reflexivity.
Qed.

Lemma append_nil_r (a : string) : a +:+ "" = a.
Proof.
  induction a as [|x a IH]; [reflexivity|].
  change (String x (a +:+ "") = String x a). rewrite IH. reflexivity.
Qed.

Lemma cut_prefix_nil (s : string) : cut_prefix s "" = Some s.
Proof. destruct s; reflexivity. Qed.

Lemma cut_prefix_append (a b : string) : cut_prefix (a +:+ b) a = Some b.
Proof.
  induction a as [|x a IH]; [apply cut_prefix_nil|].
  change (cut_prefix (String x (a +:+ b)) (String x a) = Some b).
  cbn [cut_prefix]. rewrite Ascii.eqb_refl. exact IH.
Qed.

Lemma below_append (p rest : string) : below p (p +:+ "." +:+ rest) = true.
Proof.
  unfold below, strings_HasPrefix.
  rewrite <- append_assoc, cut_prefix_append. reflexivity.
Qed.

Lemma within_empty (paths : list string) : within paths ∅.
Proof. intros key [v Hv]. rewrite lookup_empty in Hv. discriminate. Qed.

Lemma within_union (paths : list string) (a b : gmap string string) :
  within paths a -> within paths b -> within paths (a ∪ b).
Proof.
  intros Ha Hb key Hk. apply lookup_union_is_Some in Hk as [Hk|Hk]; auto.
Qed.

Lemma within_insert (paths : list string) (m : gmap string string)
    (key v : string) :
  In key paths -> within paths m -> within paths (<[key := v]> m).
Proof.
  intros Hin Hm q Hq. destruct (decide (key = q)) as [<-|Hne]; [exact Hin|].
  rewrite lookup_insert_ne in Hq by exact Hne. apply Hm, Hq.
Qed.

Lemma within_keys (m : gmap string string) : within (keys m) m.
Proof.
  intros key [v Hv]. unfold keys. apply in_map_iff. exists (key, v).
  split; [reflexivity|]. apply list_elem_of_In, elem_of_map_to_list, Hv.
Qed.

Lemma within_weaken (paths more : list string) (m : gmap string string) :
  (forall key, In key paths -> In key more) -> within paths m ->
  within more m.
Proof. intros Hsub Hm key Hk. apply Hsub, Hm, Hk. Qed.

(** Storing values one by one at their own keys rebuilds the map. *)
Lemma fold_insert_lookup (l : list (string * string))
    (acc : gmap string string) (key : string) :
  NoDup (l.*1) ->
  fold_left (fun out '(k, v) => <[k := v]> out) l acc !! key
  = match (list_to_map l : gmap string string) !! key with
    | Some v => Some v
    | None => acc !! key
    end.
Proof.
  revert acc. induction l as [|[k0 v0] l IH]; intros acc Hnd.
  - cbn. rewrite lookup_empty. reflexivity.
  - cbn [fmap list_fmap fst] in Hnd. apply NoDup_cons in Hnd as [Hk0 Hnd].
    cbn [fold_left list_to_map foldr]. rewrite IH by exact Hnd.
    apply not_elem_of_list_to_map in Hk0.
    destruct (decide (k0 = key)) as [<-|Hne].
    + change (uncurry insert (k0, v0) (list_to_map l))
        with (<[k0 := v0]> (list_to_map l : gmap string string)).
      rewrite Hk0, !lookup_insert_eq. reflexivity.
    + change (uncurry insert (k0, v0) (list_to_map l))
        with (<[k0 := v0]> (list_to_map l : gmap string string)).
      rewrite !lookup_insert_ne by exact Hne. reflexivity.
Qed.

Section Tidy.
Variable paths : list string.
Hypothesis Htidy : tidy paths = true.

Lemma tidy_below (p q : string) :
  In p paths -> In q paths -> below p q = false.
Proof.
  intros Hp Hq. unfold tidy in Htidy. rewrite forallb_forall in Htidy.
  specialize (Htidy p Hp). rewrite forallb_forall in Htidy.
  specialize (Htidy q Hq). apply negb_true_iff in Htidy. exact Htidy.
Qed.

Lemma has_below_within (k : gmap string string) (path : string) :
  within paths k -> In path paths -> has_below k path = false.
Proof.
  intros Hk Hp. unfold has_below.
  destruct (existsb _ _) eqn:E; [|reflexivity].
  apply existsb_exists in E as [[q v] [Hin Hb]].
  apply list_elem_of_In, elem_of_map_to_list in Hin.
  rewrite (tidy_below path q) in Hb; [discriminate | exact Hp |].
  apply Hk. eauto.
Qed.

Lemma clashes_within (mp : gmap string string) (q : string) :
  within paths mp -> In q paths -> clashes mp q = false.
Proof.
  intros Hmp Hq. unfold clashes.
  destruct (existsb _ _) eqn:E; [|reflexivity].
  apply existsb_exists in E as [[p v] [Hin Hr]].
  apply list_elem_of_In, elem_of_map_to_list in Hin.
  assert (Hp : In p paths) by (apply Hmp; eauto).
  unfold related in Hr.
  rewrite (tidy_below p q Hp Hq), (tidy_below q p Hq Hp) in Hr.
  discriminate.
Qed.

Lemma maps_Merge_within (mp k : gmap string string) :
  within paths mp -> within paths k -> maps_Merge mp k = mp ∪ k.
Proof.
  intros Hmp Hk. unfold maps_Merge. f_equal. apply map_filter_id.
  intros q v Hq. cbn. apply clashes_within; [exact Hmp|]. apply Hk. eauto.
Qed.

Lemma k_Exists_within (k : gmap string string) (path : string) :
  within paths k -> In path paths ->
  k_Exists k path = bool_decide (is_Some (k !! path)).
Proof.
  intros Hk Hp. unfold k_Exists. rewrite has_below_within by assumption.
  apply orb_false_r.
Qed.

Lemma k_String_within `{Providers} (k : gmap string string) (path : string) :
  within paths k -> In path paths ->
  k_String k path = default "" (k !! path).
Proof.
  intros Hk Hp. unfold k_String. destruct (k !! path); [reflexivity|].
  rewrite has_below_within by assumption. reflexivity.
Qed.

Lemma unflatten_path_within (out : gmap string string) (key : string) :
  within paths out -> In key paths ->
  forall (rest : string) (cur : option string) (word : string),
    path_join cur word +:+ rest = key ->
    unflatten_path out cur word rest = key.
Proof.
  intros Hout Hkey. induction rest as [|c rest IH]; intros cur word E.
  - cbn [unflatten_path]. rewrite append_nil_r in E. exact E.
  - cbn [unflatten_path]. destruct (Ascii.eqb_spec c ".") as [->|Hc].
    + cbv zeta.
      assert (Hb : below (path_join cur word) key = true).
      { rewrite <- E. change (String "."%char rest) with ("." +:+ rest).
        apply below_append. }
      destruct (out !! path_join cur word) as [v|] eqn:Eo.
      * rewrite (tidy_below (path_join cur word) key) in Hb;
          [discriminate | apply Hout; eauto | exact Hkey].
      * apply IH. rewrite <- E. cbn [path_join].
        change (String "."%char rest) with ("." +:+ rest).
        rewrite !append_assoc. reflexivity.
    + apply IH. rewrite <- E.
      change (String c rest) with (String c "" +:+ rest).
      destruct cur as [c0|]; cbn [path_join]; rewrite !append_assoc;
        reflexivity.
Qed.

Lemma unflatten_assign_within (out : gmap string string) (key v : string) :
  within paths out -> In key paths ->
  unflatten_assign out key v = <[key := v]> out.
Proof.
  intros Hout Hkey. unfold unflatten_assign. cbv zeta.
  rewrite (unflatten_path_within out key Hout Hkey key None "")
    by reflexivity.
  f_equal. apply map_filter_id. intros q w Hq. cbn.
  apply tidy_below; [exact Hkey | apply Hout; eauto].
Qed.

Lemma unflatten_fold_within (l : list (string * string))
    (acc : gmap string string) :
  (forall key v, In (key, v) l -> In key paths) -> within paths acc ->
  fold_left (fun out '(key, v) => unflatten_assign out key v) l acc
  = fold_left (fun out '(key, v) => <[key := v]> out) l acc.
Proof.
  revert acc. induction l as [|[key v] l IH]; intros acc Hl Hacc;
    [reflexivity|].
  cbn [fold_left].
  assert (Hkey : In key paths) by (eapply Hl; left; reflexivity).
  rewrite unflatten_assign_within by assumption.
  apply IH; [intros; eapply Hl; right; eassumption|].
  apply within_insert; assumption.
Qed.

Lemma maps_Unflatten_within `{Providers} (mp : gmap string string) :
  within paths mp -> maps_Unflatten mp = mp.
Proof.
  intros Hmp. unfold maps_Unflatten.
  pose proof (go_range_Permutation mp) as Hperm.
  assert (Hnd : NoDup ((go_range mp).*1)).
  { rewrite Hperm. apply NoDup_fst_map_to_list. }
  rewrite unflatten_fold_within; [| |apply within_empty].
  - apply map_eq. intros key.
    rewrite fold_insert_lookup by exact Hnd.
    rewrite (list_to_map_proper _ _ Hnd Hperm).
    rewrite list_to_map_to_list, lookup_empty.
    destruct (mp !! key); reflexivity.
  - intros key v Hin. apply Hmp.
    apply list_elem_of_In in Hin. rewrite Hperm in Hin.
    apply elem_of_map_to_list in Hin. eauto.
Qed.

End Tidy.

Section Layers.
Context `{Providers}.
Variable f : gmap string Flag.
Variable paths : list string.
Hypothesis Htidy : tidy paths = true.
Hypothesis Hflags : within paths (all_flags f).
Hypothesis Hcontrol : forall key, In key control_keys -> In key paths.

Lemma k_Exists_empty (key : string) : k_Exists ∅ key = false.
Proof.
  unfold k_Exists, has_below. rewrite lookup_empty, map_to_list_empty.
  rewrite bool_decide_false by (intros [? ?]; discriminate). reflexivity.
Qed.

Lemma posflag_Read_empty : posflag_Read f ∅ = all_flags f.
Proof.
  apply map_eq; intros key. unfold posflag_Read, all_flags.
  rewrite map_lookup_imap, lookup_fmap.
  destruct (f !! key) as [fl|]; cbn [fmap option_fmap option_map mbind
    option_bind]; [|reflexivity].
  rewrite k_Exists_empty, andb_false_r. reflexivity.
Qed.

Lemma posflag_Read_covered (k : gmap string string) :
  covers f k -> posflag_Read f k = set_flags f.
Proof.
  intros Hc. apply map_eq; intros key. unfold posflag_Read, set_flags, k_Exists.
  rewrite map_lookup_imap, lookup_omap.
  destruct (f !! key) as [fl|] eqn:E; cbn [mbind option_bind];
    [|reflexivity].
  rewrite bool_decide_true by (eapply Hc, E). cbn [orb].
  destruct (Changed fl); reflexivity.
Qed.

Lemma set_flags_all_flags : set_flags f ∪ all_flags f = all_flags f.
Proof.
  apply map_eq; intros key. unfold set_flags, all_flags.
  rewrite lookup_union, lookup_omap, lookup_fmap.
  destruct (f !! key) as [fl|]; cbn; [|reflexivity].
  destruct (Changed fl); reflexivity.
Qed.

Lemma within_set_flags : within paths (set_flags f).
Proof.
  intros key [v Hv]. apply Hflags. unfold set_flags in Hv.
  unfold all_flags. rewrite lookup_omap in Hv. rewrite lookup_fmap.
  destruct (f !! key); [cbn; eauto | discriminate].
Qed.

Lemma covers_all_flags : covers f (all_flags f).
Proof.
  intros key fl E. unfold all_flags. rewrite lookup_fmap, E. cbn. eauto.
Qed.

Lemma covers_union (src k : gmap string string) :
  covers f k -> covers f (src ∪ k).
Proof.
  intros Hc key fl E. apply lookup_union_is_Some. right. eapply Hc, E.
Qed.

Lemma agrees_all_flags : agrees f (all_flags f).
Proof. intros key _. reflexivity. Qed.

Lemma agrees_set_flags (k : gmap string string) :
  agrees f k -> agrees f (set_flags f ∪ k).
Proof.
  intros Ha key Hin. rewrite lookup_union, (Ha key Hin).
  unfold set_flags, all_flags. rewrite lookup_omap, lookup_fmap.
  destruct (f !! key) as [fl|]; cbn; [|reflexivity].
  destruct (Changed fl); reflexivity.
Qed.

Lemma no_control_lookup (src : gmap string string) (key : string) :
  no_control src = true -> In key control_keys -> src !! key = None.
Proof.
  unfold no_control. rewrite forallb_forall. intros Hall Hin.
  specialize (Hall key Hin).
  apply negb_true_iff, bool_decide_eq_false in Hall.
  destruct (src !! key); [exfalso; eauto | reflexivity].
Qed.

Lemma agrees_source (src k : gmap string string) :
  no_control src = true -> agrees f k -> agrees f (src ∪ k).
Proof.
  intros Hn Ha key Hin.
  rewrite lookup_union_r by (apply no_control_lookup; assumption).
  apply Ha, Hin.
Qed.

Lemma agrees_String (k : gmap string string) (key : string) :
  within paths k -> agrees f k -> In key control_keys ->
  k_String k key = option_of f key.
Proof.
  intros Hk Ha Hin.
  rewrite (k_String_within paths Htidy) by auto.
  unfold option_of. rewrite (Ha key Hin). reflexivity.
Qed.

(** Loading a source whose paths fit puts its leaves over the others. *)
Lemma k_Load_within (mp k : gmap string string) :
  within paths mp -> within paths k -> k_Load (inr mp) k = (mp ∪ k, None).
Proof.
  intros Hmp Hk. unfold k_Load.
  rewrite (maps_Merge_within paths Htidy) by assumption. reflexivity.
Qed.

Lemma load_posflag_empty : load_posflag f ∅ = (all_flags f, None).
Proof.
  unfold load_posflag. rewrite posflag_Read_empty.
  rewrite (maps_Unflatten_within paths Htidy) by exact Hflags.
  rewrite k_Load_within by (exact Hflags || apply within_empty).
  rewrite (right_id_L ∅ (∪)). reflexivity.
Qed.

Lemma load_posflag_covered (k : gmap string string) :
  within paths k -> covers f k -> load_posflag f k = (set_flags f ∪ k, None).
Proof.
  intros Hk Hc. unfold load_posflag.
  rewrite posflag_Read_covered by assumption.
  rewrite (maps_Unflatten_within paths Htidy) by apply within_set_flags.
  apply k_Load_within; [apply within_set_flags | exact Hk].
Qed.

End Layers.

Section Precedence.
Context `{Providers}.
Variable f : gmap string Flag.
Variables str file : gmap string string.
Variable paths : list string.

(** The paths of the flags and of the sources are leaves of one nested
    map; no S3 secret key is configured; the named sources load, and
    none of them sets an option of the loader itself. *)
Hypothesis Htidy : tidy paths = true.
Hypothesis Hflags : within paths (all_flags f).
Hypothesis Hcontrol : forall key, In key control_keys -> In key paths.
Hypothesis Henv_in : within paths (env_source f).
Hypothesis Hstr_in : within paths str.
Hypothesis Hfile_in : within paths file.
Hypothesis Hs3 : option_of f "conf.s3.secret-key" = "".
Hypothesis Hstr : string_source f = inr str.
Hypothesis Hfile : file_source f = inr file.
Hypothesis Henv_ctl : no_control (env_source f) = true.
Hypothesis Hstr_ctl : no_control str = true.
Hypothesis Hfile_ctl : no_control file = true.

Lemma steady_all_flags : steady f paths (all_flags f).
Proof.
  split; [exact Hflags|]. split; [apply covers_all_flags|].
  apply agrees_all_flags.
Qed.

Lemma steady_set_flags (k : gmap string string) :
  steady f paths k -> steady f paths (set_flags f ∪ k).
Proof.
  intros (Hk & Hc & Ha). split; [|split].
  - apply within_union; [apply within_set_flags; assumption | exact Hk].
  - apply covers_union, Hc.
  - apply agrees_set_flags, Ha.
Qed.

Lemma steady_source (src k : gmap string string) :
  within paths src -> no_control src = true -> steady f paths k -> steady f paths (src ∪ k).
Proof.
  intros Hin Hn (Hk & Hc & Ha). split; [|split].
  - apply within_union; assumption.
  - apply covers_union, Hc.
  - apply agrees_source; assumption.
Qed.

Lemma load_config_string_layers (k : gmap string string) :
  steady f paths k -> set_flags f ∪ k = k ->
  load_config_string f k = (set_flags f ∪ (str ∪ k), None).
Proof.
  intros Hst Hset. pose proof Hst as (Hk & Hc & Ha).
  unfold load_config_string. cbv zeta.
  rewrite (agrees_String f paths Htidy Hcontrol k "conf.string" Hk Ha)
    by (cbn; tauto).
  revert Hstr. unfold string_source. cbv zeta.
  destruct (0 <? String.length (option_of f "conf.string"))%nat.
  - intros ->. unfold or_wrap, return_nil.
    rewrite (k_Load_within paths Htidy) by assumption.
    rewrite (load_posflag_covered f paths Htidy Hflags);
      [reflexivity | apply within_union; assumption | apply covers_union, Hc].
  - intros [= <-]. unfold return_nil. f_equal.
    rewrite (left_id_L ∅ (∪)). symmetry. exact Hset.
Qed.

Lemma loadEnvironmentVariables_layers (k : gmap string string) :
  steady f paths k -> loadEnvironmentVariables k = (env_source f ∪ k, None).
Proof.
  intros (Hk & Hc & Ha). unfold loadEnvironmentVariables. cbv zeta.
  rewrite (agrees_String f paths Htidy Hcontrol k "conf.env-prefix" Hk Ha)
    by (cbn; tauto).
  revert Henv_in. unfold env_source. cbv zeta.
  destruct (negb (String.length (option_of f "conf.env-prefix") =? 0)%nat).
  - intros Hin. rewrite (maps_Unflatten_within paths Htidy) by exact Hin.
    apply (k_Load_within paths Htidy); assumption.
  - intros _. unfold return_nil. rewrite (left_id_L ∅ (∪)). reflexivity.
Qed.

(** What follows the first load of the command line in
    [applyOverrideOverrides]. *)
Lemma overrides_tail (k : gmap string string) :
  steady f paths k -> set_flags f ∪ k = k ->
  (check (load_config_string f);;
   check loadEnvironmentVariables wrap "error loading environment variables";;
   return_nil) k
  = (env_source f ∪ (set_flags f ∪ (str ∪ k)), None).
Proof.
  intros Hst Hset. unfold or_return, or_wrap.
  rewrite load_config_string_layers by assumption.
  rewrite loadEnvironmentVariables_layers; [reflexivity|].
  apply steady_set_flags, steady_source; assumption.
Qed.

Lemma applyOverrideOverrides_empty :
  applyOverrideOverrides f ∅
  = (env_source f ∪ (set_flags f ∪ (str ∪ all_flags f)), None).
Proof.
  unfold applyOverrideOverrides. unfold or_wrap at 1.
  rewrite (load_posflag_empty f paths Htidy Hflags).
  apply overrides_tail; [apply steady_all_flags | apply set_flags_all_flags].
Qed.

Lemma applyOverrideOverrides_layers (k : gmap string string) :
  steady f paths k ->
  applyOverrideOverrides f k
  = (env_source f ∪ (set_flags f ∪ (str ∪ k)), None).
Proof.
  intros Hst. pose proof Hst as (Hk & Hc & Ha).
  unfold applyOverrideOverrides. unfold or_wrap at 1.
  rewrite (load_posflag_covered f paths Htidy Hflags) by assumption.
  rewrite overrides_tail.
  - f_equal. layers_eq.
  - apply steady_set_flags, Hst.
  - layers_eq.
Qed.

Lemma steady_layers (k : gmap string string) :
  steady f paths k -> steady f paths (env_source f ∪ (set_flags f ∪ (str ∪ k))).
Proof.
  intros Hst. apply steady_source; [assumption..|].
  apply steady_set_flags, steady_source; assumption.
Qed.

Lemma layers_settled (k : gmap string string) :
  settled f str (env_source f ∪ (set_flags f ∪ (str ∪ k))).
Proof. unfold settled. layers_eq. Qed.

(** Without a secret key the S3 configuration is not asked for. *)
Lemma load_s3_config_skipped (k : gmap string string) :
  steady f paths k -> load_s3_config f k = (k, None).
Proof.
  intros (Hk & Hc & Ha). unfold load_s3_config.
  rewrite (agrees_String f paths Htidy Hcontrol k "conf.s3.secret-key" Hk Ha)
    by (cbn; tauto).
  rewrite Hs3. reflexivity.
Qed.

Lemma load_config_file_layers (k : gmap string string) :
  steady f paths k -> settled f str k ->
  load_config_file f k
  = (env_source f ∪ (set_flags f ∪ (str ∪ (file ∪ k))), None).
Proof.
  intros Hst Hset. pose proof Hst as (Hk & Hc & Ha).
  unfold load_config_file. cbv zeta.
  rewrite (agrees_String f paths Htidy Hcontrol k "conf.file" Hk Ha) by (cbn; tauto).
  revert Hfile. unfold file_source. cbv zeta.
  destruct (0 <? String.length (option_of f "conf.file"))%nat.
  - intros E. unfold or_wrap, or_return, return_nil, load_file.
    rewrite E. rewrite (k_Load_within paths Htidy) by assumption.
    rewrite applyOverrideOverrides_layers; [reflexivity|].
    apply steady_source; assumption.
  - intros [= <-]. unfold return_nil. f_equal.
    rewrite (left_id_L ∅ (∪)). symmetry. exact Hset.
Qed.

Lemma applyOverrides_layers :
  applyOverrides f ∅
  = (env_source f ∪ (set_flags f ∪ (str ∪ (file ∪ all_flags f))), None).
Proof.
  unfold applyOverrides, or_return, return_nil.
  rewrite applyOverrideOverrides_empty.
  rewrite load_s3_config_skipped by apply steady_layers, steady_all_flags.
  rewrite load_config_file_layers;
    [ | apply steady_layers, steady_all_flags | apply layers_settled ].
  f_equal. layers_eq.
Qed.

End Precedence.

Lemma In_universe `{Providers} (f : gmap string Flag)
    (str file : gmap string string) (key : string) :
  In key (universe f str file) <->
  In key control_keys \/ In key (keys (all_flags f))
  \/ In key (keys (env_source f)) \/ In key (keys str) \/ In key (keys file).
Proof. unfold universe. rewrite !in_app_iff. tauto. Qed.

Lemma universe_within `{Providers} (f : gmap string Flag)
    (str file : gmap string string) :
  within (universe f str file) (all_flags f)
  /\ (forall key, In key control_keys -> In key (universe f str file))
  /\ within (universe f str file) (env_source f)
  /\ within (universe f str file) str
  /\ within (universe f str file) file.
Proof.
  repeat split; try (intros key Hk; apply In_universe);
    try (pose proof (within_keys _ key Hk)); tauto.
Qed.

(** C8, as the code has it: when no S3 secret key is configured, the
    sources the command line names load, none of them sets an option of
    the loader itself, and no key lies below another key, the final
    configuration stacks the sources strongest first as environment
    variables, flags set on the command line, the inline config string,
    the local config file, and the flag defaults; every key holds the
    value of the strongest source that sets it. *)
Theorem applyOverrides_precedence `{Providers}
    (f0 : gmap string Flag) (args : list string) (f : gmap string Flag)
    (str file : gmap string string)
    (Hparse : pflag_Parse f0 args = inr (f, 0%nat))
    (Htidy : tidy (universe f str file) = true)
    (Hs3 : option_of f "conf.s3.secret-key" = "")
    (Hstr : string_source f = inr str)
    (Hfile : file_source f = inr file)
    (Henv_ctl : no_control (env_source f) = true)
    (Hstr_ctl : no_control str = true)
    (Hfile_ctl : no_control file = true) :
  applyOverrides f ∅
  = (env_source f ∪ (set_flags f ∪ (str ∪ (file ∪ all_flags f))), None)
  /\ BeginCommonParse f0 args
     = (Some (env_source f
                ∪ (set_flags f ∪ (str ∪ (file ∪ all_flags f)))), None)
  /\ (forall key : string,
        fst (applyOverrides f ∅) !! key
        = first_set [ env_source f !! key; set_flags f !! key; str !! key;
                      file !! key; all_flags f !! key ]).
Proof.
  destruct (universe_within f str file) as (Hf & Hc & He & Hs & Hfi).
  pose proof (applyOverrides_layers f str file (universe f str file)
                Htidy Hf Hc He Hs Hfi Hs3 Hstr Hfile
                Henv_ctl Hstr_ctl Hfile_ctl) as E.
  split; [exact E|]. split.
  - unfold BeginCommonParse. rewrite Hparse. cbn [Nat.eqb negb].
    rewrite E. reflexivity.
  - intros key. rewrite E. cbn [fst first_set]. rewrite !lookup_union.
    destruct (env_source f !! key), (set_flags f !! key), (str !! key),
      (file !! key), (all_flags f !! key); reflexivity.
Qed.

(** Every source is present on the sample command line; the mode comes
    from the environment although the inline string sets it too, and the
    data directory comes from the environment although the command line
    sets it. *)
Lemma applyOverrides_precedence_witness :
  exists str file : gmap string string,
    @pflag_Parse Sample.world Sample.flags_declared Sample.args
    = inr (Sample.flags, 0%nat)
    /\ tidy (@universe Sample.world Sample.flags str file) = true
    /\ option_of Sample.flags "conf.s3.secret-key" = ""
    /\ @string_source Sample.world Sample.flags = inr str
    /\ @file_source Sample.world Sample.flags = inr file
    /\ no_control (@env_source Sample.world Sample.flags) = true
    /\ no_control str = true /\ no_control file = true
    /\ forall key : string,
         fst (@applyOverrides Sample.world Sample.flags ∅) !! key
         = first_set [ @env_source Sample.world Sample.flags !! key;
                       set_flags Sample.flags !! key; str !! key;
                       file !! key; all_flags Sample.flags !! key ].
Proof.
  exists {[ "mode" := "aggregator"; "store-signer" := "none";
            "local-disk.key-dir" := "/inline/keys" ]},
         {[ "store-signer" := "0xaa"; "local-disk.key-dir" := "/file/keys";
            "aggregator.backends" := "file-backends" ]}.
  assert (Hparse : @pflag_Parse Sample.world Sample.flags_declared Sample.args
                   = inr (Sample.flags, 0%nat))
    by (vm_compute; reflexivity).
  assert (Htidy : tidy (@universe Sample.world Sample.flags
                          {[ "mode" := "aggregator"; "store-signer" := "none";
                             "local-disk.key-dir" := "/inline/keys" ]}
                          {[ "store-signer" := "0xaa";
                             "local-disk.key-dir" := "/file/keys";
                             "aggregator.backends" := "file-backends" ]})
                  = true)
    by (vm_compute; reflexivity).
  assert (Hstr : @string_source Sample.world Sample.flags
                 = inr {[ "mode" := "aggregator"; "store-signer" := "none";
                          "local-disk.key-dir" := "/inline/keys" ]})
    by (vm_compute; reflexivity).
  assert (Hfile : @file_source Sample.world Sample.flags
                  = inr {[ "store-signer" := "0xaa";
                           "local-disk.key-dir" := "/file/keys";
                           "aggregator.backends" := "file-backends" ]})
    by (vm_compute; reflexivity).
  assert (He : no_control (@env_source Sample.world Sample.flags) = true)
    by (vm_compute; reflexivity).
  split; [exact Hparse|]. split; [exact Htidy|].
  split; [vm_compute; reflexivity|].
  split; [exact Hstr|]. split; [exact Hfile|]. split; [exact He|].
  split; [vm_compute; reflexivity|]. split; [vm_compute; reflexivity|].
  exact (proj2 (proj2 (@applyOverrides_precedence Sample.world
                         Sample.flags_declared Sample.args Sample.flags
                         _ _ Hparse Htidy eq_refl Hstr Hfile He
                         eq_refl eq_refl))).
Defined.

(** Against C8 as the specification words it: the command line sets the
    mode, an environment variable sets it too, and the final
    configuration holds the value of the environment variable. *)
Lemma environment_overrides_command_line :
  @pflag_Parse Sample.world Sample.flags_mode_declared Sample.args_mode
  = inr (Sample.flags_mode, 0%nat)
  /\ Sample.flags_mode !! "mode" = Some (Sample.flag_set "aggregator")
  /\ @env_source Sample.world Sample.flags_mode !! "mode"
     = Some "local-disk"
  /\ snd (@applyOverrides Sample.world Sample.flags_mode ∅) = None
  /\ fst (@applyOverrides Sample.world Sample.flags_mode ∅) !! "mode"
     = Some "local-disk"
  /\ (exists k,
        @BeginCommonParse Sample.world Sample.flags_mode_declared
          Sample.args_mode = (Some k, None)
        /\ k !! "mode" = Some "local-disk").
Proof.
  repeat split; try (vm_compute; reflexivity).
  exists (fst (@applyOverrides Sample.world Sample.flags_mode ∅)).
  split; vm_compute; reflexivity.
Qed.

End ConfFacts.

(** ** Mode selection as a whole *)
Module ModeMore.

Import Das Terms ModeFacts.

Lemma app_one_neq {A} (l : list A) (x : A) : l ++ [x] <> l.
Proof.
  intros E. apply (f_equal (@length A)) in E.
  rewrite length_app in E. cbn in E. lia.
Qed.

(** The four ways [Mode] can end, each with its value, error and output. *)
Lemma Mode_cases `{Imports} (c : DataAvailabilityConfig) (out : list event) :
  (ModeImpl c = "onchain"%string
   /\ Mode c out = ((OnchainDataAvailability, None), out))
  \/ (ModeImpl c = "local-disk"%string
      /\ local_disk_parameters_present (LocalDiskDASConfig_ c)
      /\ Mode c out = ((LocalDiskDataAvailability, None), out))
  \/ (ModeImpl c = "aggregator"%string
      /\ AggregatorConfig_ c <> DefaultAggregatorConfig
      /\ Mode c out = ((AggregatorDataAvailability, None), out))
  \/ (exists e,
        ModeImpl c = ""%string /\ Mode c out = ((0, Some e), out))
  \/ (exists e,
        ModeImpl c <> ""%string
        /\ ModeImpl c <> "onchain"%string
        /\ (ModeImpl c = "local-disk"%string ->
            ~ local_disk_parameters_present (LocalDiskDASConfig_ c))
        /\ (ModeImpl c = "aggregator"%string ->
            AggregatorConfig_ c = DefaultAggregatorConfig)
        /\ Mode c out = ((0, Some e), out ++ [flag_Usage])).
Proof.
  pose proof (local_disk_guard (LocalDiskDASConfig_ c)) as Hg.
  unfold Mode, OnchainDataAvailabilityString, LocalDiskDataAvailabilityString,
    AggregatorDataAvailabilityString.
  destruct (String.eqb_spec (ModeImpl c) "") as [E0|E0].
  { right; right; right; left. eauto. }
  destruct (String.eqb_spec (ModeImpl c) "onchain") as [E1|E1].
  { left. auto. }
  destruct (String.eqb_spec (ModeImpl c) "local-disk") as [E2|E2].
  { destruct (String.eqb (DataDir (LocalDiskDASConfig_ c)) ""
              || (String.eqb (KeyDir (LocalDiskDASConfig_ c)) ""
                  && String.eqb (PrivKey (LocalDiskDASConfig_ c)) "")).
    - do 4 right. eexists. repeat split; try assumption.
      + intros _ Hp. apply Hg in Hp. discriminate.
      + intros E3. rewrite E2 in E3. discriminate.
    - right; left. repeat split; try assumption; apply Hg; reflexivity. }
  destruct (String.eqb_spec (ModeImpl c) "aggregator") as [E3|E3].
  { destruct (bool_decide_reflect
                (AggregatorConfig_ c = DefaultAggregatorConfig)) as [Ed|Ed].
    - do 4 right. eexists.
      repeat split; try assumption; intros; try contradiction; assumption.
    - right; right; left. auto. }
  do 4 right. eexists. repeat split; try assumption; intros; contradiction.
Qed.

(** X1: [Mode] resolves exactly for "onchain", for "local-disk" with its
    parameters present, and for "aggregator" with a non-default
    aggregator configuration; a resolved mode is the one the string
    names, and nothing is printed. *)
Theorem Mode_resolves_iff `{Imports} (c : DataAvailabilityConfig)
    (out : list event) :
  (resolved (Mode c out) <->
     ModeImpl c = "onchain"%string
     \/ (ModeImpl c = "local-disk"%string
         /\ local_disk_parameters_present (LocalDiskDASConfig_ c))
     \/ (ModeImpl c = "aggregator"%string
         /\ AggregatorConfig_ c <> DefaultAggregatorConfig))
  /\ (resolved (Mode c out) ->
        snd (Mode c out) = out
        /\ ((ModeImpl c = "onchain"%string
             /\ fst (fst (Mode c out)) = OnchainDataAvailability)
            \/ (ModeImpl c = "local-disk"%string
                /\ fst (fst (Mode c out)) = LocalDiskDataAvailability)
            \/ (ModeImpl c = "aggregator"%string
                /\ fst (fst (Mode c out)) = AggregatorDataAvailability))).
Proof.
  unfold resolved.
  destruct (Mode_cases c out)
    as [(E & ->)|[(E & Hp & ->)|[(E & Hd & ->)|[(e & E & ->)|
        (e & E0 & E1 & E2 & E3 & ->)]]]]; cbn.
  - split; [tauto|]. intros _. split; [reflexivity|]. left. auto.
  - split; [tauto|]. intros _. split; [reflexivity|]. right; left. auto.
  - split; [tauto|]. intros _. split; [reflexivity|]. right; right. auto.
  - split; [|discriminate]. split; [discriminate|].
    rewrite E. intros [?|[[? _]|[? _]]]; discriminate.
  - split; [|discriminate]. split; [discriminate|].
    intros [Ha|[[Ha Hb]|[Ha Hb]]]; exfalso.
    + contradiction.
    + exact (E2 Ha Hb).
    + exact (Hb (E3 Ha)).
Qed.

(** X2: when [Mode] fails, the mode value it returns is the number of the
    onchain mode; the usage text is printed once, exactly when [Mode]
    fails on a non-empty mode string, and the output is otherwise left
    as it was. *)
Theorem Mode_failure_shape `{Imports} (c : DataAvailabilityConfig)
    (out : list event) :
  (~ resolved (Mode c out) ->
     fst (fst (Mode c out)) = OnchainDataAvailability)
  /\ (snd (Mode c out) = out ++ [flag_Usage] <->
        ~ resolved (Mode c out) /\ ModeImpl c <> ""%string)
  /\ (snd (Mode c out) = out <->
        resolved (Mode c out) \/ ModeImpl c = ""%string).
Proof.
  unfold resolved. pose proof (app_one_neq out flag_Usage) as Hne.
  destruct (Mode_cases c out)
    as [(E & ->)|[(E & Hp & ->)|[(E & Hd & ->)|[(e & E & ->)|
        (e & E0 & E1 & E2 & E3 & ->)]]]]; cbn;
    repeat split; try tauto; try congruence; try discriminate;
    solve [ intros [? ?]; congruence
          | intros [?|?]; [discriminate|contradiction] ].
Qed.

End ModeMore.

(** ** More on the store-signer address resolver *)
Module AddressMore.

Import Das Terms MoreTerms GoFacts AddressFacts ConfUtil.

Lemma BytesToAddress_leading_zero (b : list byte) :
  BytesToAddress (x00 :: b) = BytesToAddress b.
Proof.
  apply vec_to_list_inj2. rewrite !BytesToAddress_bytes.
  unfold AddressLength. cbn [length].
  destruct (Nat.ltb_spec 20 (S (length b))) as [H1|H1],
    (Nat.ltb_spec 20 (length b)) as [H2|H2]; try lia.
  - replace (S (length b) - 20)%nat with (S (length b - 20)) by lia.
    reflexivity.
  - replace (S (length b) - 20)%nat with 1%nat by lia.
    replace (20 - length b)%nat with 0%nat by lia. reflexivity.
  - replace (20 - length b)%nat with (S (20 - S (length b))) by lia.
    cbn [replicate]. rewrite replicate_cons_app, <- app_assoc. reflexivity.
Qed.

Lemma BytesToAddress_of_address (a : Address) :
  BytesToAddress (vec_to_list a) = a.
Proof.
  apply vec_to_list_inj2. rewrite BytesToAddress_bytes, length_vec_to_list.
  reflexivity.
Qed.

Lemma strings_TrimPrefix_0x_append (t : string) :
  strings_TrimPrefix ("0x" +:+ t) "0x" = t.
Proof. destruct t; reflexivity. Qed.

Lemma resolver_with_prefix (t : string) :
  StoreSignerAddressFromString ("0x" +:+ t) =
  match hex_DecodeString t with
  | (_, Some e) => (None, Some e)
  | (addrBytes, None) => (Some (BytesToAddress addrBytes), None)
  end.
Proof.
  rewrite resolver_not_none by discriminate.
  rewrite strings_TrimPrefix_0x_append. reflexivity.
Qed.

(** X3: the "0x" prefix is optional: a text other than "none" that does
    not start with "0x" resolves to the same result with the prefix put
    in front of it. *)
Theorem resolver_prefix_optional (s : string)
    (Hs : s <> "none"%string) (Hp : strings_HasPrefix s "0x" = false) :
  StoreSignerAddressFromString ("0x" +:+ s) = StoreSignerAddressFromString s.
Proof.
  rewrite resolver_with_prefix, (resolver_not_none s Hs).
  unfold strings_TrimPrefix. unfold strings_HasPrefix in Hp.
  destruct (cut_prefix s "0x"); [discriminate|reflexivity].
Qed.

Lemma resolver_prefix_optional_witness :
  "00ff"%string <> "none"%string
  /\ strings_HasPrefix "00ff" "0x" = false
  /\ StoreSignerAddressFromString "0x00ff" = StoreSignerAddressFromString "00ff".
Proof.
  assert (Hs : "00ff"%string <> "none"%string) by discriminate.
  split; [exact Hs|]. split; [reflexivity|].
  exact (resolver_prefix_optional "00ff" Hs eq_refl).
Defined.

(** X4: leading zero bytes do not matter: two more zero digits in front
    of the hexadecimal text give the same address, or the same error. *)
Theorem resolver_leading_zeros (t : string) :
  StoreSignerAddressFromString ("0x00" +:+ t)
  = StoreSignerAddressFromString ("0x" +:+ t).
Proof.
  change ("0x00" +:+ t)%string with ("0x" +:+ ("00" +:+ t))%string.
  rewrite !resolver_with_prefix. unfold hex_DecodeString.
  change (bytes_of_string ("00" +:+ t))
    with (x30 :: x30 :: bytes_of_string t).
  change (hex_Decode (x30 :: x30 :: bytes_of_string t))
    with (let (out, err) := hex_Decode (bytes_of_string t) in
          (x00 :: out, err)).
  destruct (hex_Decode (bytes_of_string t)) as [out [e|]]; [reflexivity|].
  rewrite BytesToAddress_leading_zero. reflexivity.
Qed.

Lemma bytes_of_string_ToLower (t : string) :
  bytes_of_string (ascii_ToLower t) = map lower_byte (bytes_of_string t).
Proof.
  induction t as [|c t IH]; [reflexivity|].
  change (bytes_of_string (ascii_ToLower (String c t)))
    with (byte_of_ascii (lower_ascii c)
            :: bytes_of_string (ascii_ToLower t)).
  change (bytes_of_string (String c t))
    with (byte_of_ascii c :: bytes_of_string t).
  rewrite IH. cbn [map]. unfold lower_byte.
  rewrite ascii_of_byte_of_ascii. reflexivity.
Qed.

Lemma reverseHexTable_lower (b : byte) :
  reverseHexTable (lower_byte b) = reverseHexTable b.
Proof. destruct b; reflexivity. Qed.

Lemma hex_Decode_lower (l : list byte) :
  fst (hex_Decode (map lower_byte l)) = fst (hex_Decode l)
  /\ (snd (hex_Decode (map lower_byte l)) = None
      <-> snd (hex_Decode l) = None).
Proof.
  induction l as [| a | a b l IH] using list_pair_ind.
  - split; reflexivity.
  - cbn [map hex_Decode]. rewrite reverseHexTable_lower.
    destruct (reverseHexTable a >? 15); cbn; split; try reflexivity;
      split; discriminate.
  - cbn [map hex_Decode]. rewrite !reverseHexTable_lower.
    destruct (reverseHexTable a >? 15);
      [cbn; split; [reflexivity | split; discriminate]|].
    destruct (reverseHexTable b >? 15);
      [cbn; split; [reflexivity | split; discriminate]|].
    destruct IH as [IH1 IH2].
    destruct (hex_Decode (map lower_byte l)) as [o1 e1],
      (hex_Decode l) as [o2 e2].
    cbn in *. split; [congruence | exact IH2].
Qed.

(** X5: the case of the hexadecimal digits does not matter: the text
    with its ASCII letters in lower case resolves to the same address,
    and fails exactly when the original text fails. *)
Theorem resolver_case_insensitive (t : string) :
  fst (StoreSignerAddressFromString ("0x" +:+ ascii_ToLower t))
  = fst (StoreSignerAddressFromString ("0x" +:+ t))
  /\ (snd (StoreSignerAddressFromString ("0x" +:+ ascii_ToLower t)) = None
      <-> snd (StoreSignerAddressFromString ("0x" +:+ t)) = None).
Proof.
  rewrite !resolver_with_prefix. unfold hex_DecodeString.
  rewrite bytes_of_string_ToLower.
  destruct (hex_Decode_lower (bytes_of_string t)) as [H1 H2].
  destruct (hex_Decode (map lower_byte (bytes_of_string t))) as [o1 [e1|]],
    (hex_Decode (bytes_of_string t)) as [o2 [e2|]]; cbn in *.
  - split; [reflexivity | split; discriminate].
  - destruct H2 as [_ H2]. specialize (H2 eq_refl). discriminate.
  - destruct H2 as [H2 _]. specialize (H2 eq_refl). discriminate.
  - subst o2. split; [reflexivity | tauto].
Qed.

Lemma hex_Decode_Encode (bs : list byte) :
  hex_Decode (hex_Encode bs) = (bs, None).
Proof.
  induction bs as [|v bs IH]; [reflexivity|].
  cbn [hex_Encode hex_Decode]. rewrite IH.
  assert (Hhi : (reverseHexTable (hex_digit (Z.shiftr (Z_of_byte v) 4)) >? 15)
                = false) by (destruct v; reflexivity).
  assert (Hlo : (reverseHexTable (hex_digit (Z.land (Z_of_byte v) 15)) >? 15)
                = false) by (destruct v; reflexivity).
  assert (Hv : byte_of_Z
                 (Z.lor
                    (Z.shiftl
                       (reverseHexTable (hex_digit (Z.shiftr (Z_of_byte v) 4)))
                       4)
                    (reverseHexTable (hex_digit (Z.land (Z_of_byte v) 15))))
               = v) by (destruct v; reflexivity).
  rewrite Hhi, Hlo, Hv. reflexivity.
Qed.

(** X6: hexadecimal text round-trips: the text [hex.EncodeToString]
    writes for any bytes decodes to these bytes, and every address is
    resolved from "0x" followed by the text of its twenty bytes. *)
Theorem resolver_of_hex_text (a : Address) (bs : list byte) :
  hex_DecodeString (hex_EncodeToString bs) = (bs, None)
  /\ StoreSignerAddressFromString
       ("0x" +:+ hex_EncodeToString (vec_to_list a))
     = (Some a, None).
Proof.
  assert (Hd : forall l : list byte,
             hex_DecodeString (hex_EncodeToString l) = (l, None)).
  { intros l. unfold hex_DecodeString, hex_EncodeToString, bytes_of_string.
    rewrite list_byte_of_string_of_list_byte. apply hex_Decode_Encode. }
  split; [apply Hd|].
  rewrite resolver_with_prefix, Hd, BytesToAddress_of_address. reflexivity.
Qed.

Example hex_EncodeToString_sample :
  hex_EncodeToString [x00; x0a; xff; x80] = "000aff80"%string.
Proof. reflexivity. Qed.

End AddressMore.

(** ** Encodings tell certificates apart *)
Module WireMore.

Import Das Terms MoreTerms GoFacts WireFacts.

Lemma PutUint64_inj (a b : Z) :
  0 <= a < 2 ^ 64 -> 0 <= b < 2 ^ 64 -> PutUint64 a = PutUint64 b -> a = b.
Proof.
  intros Ha Hb E. apply (f_equal be_value) in E.
  rewrite !be_value_PutUint64_uint64 in E by assumption. exact E.
Qed.

Lemma signable_fields_inj `{Imports} (c1 c2 : DataAvailabilityCertificate) :
  0 <= Timeout c1 < 2 ^ 64 -> 0 <= Timeout c2 < 2 ^ 64 ->
  serializeSignableFields c1 = serializeSignableFields c2 ->
  DataHash c1 = DataHash c2 /\ Timeout c1 = Timeout c2.
Proof.
  intros H1 H2 E. unfold serializeSignableFields in E. cbn [app] in E.
  apply app_inj_1 in E as [Ed Et];
    [|rewrite !length_vec_to_list; reflexivity].
  split; [apply vec_to_list_inj2, Ed | apply PutUint64_inj; assumption].
Qed.

(** X7: for timeouts that are [uint64], two certificates have the same
    signable bytes exactly when they have the same data hash and the
    same timeout. *)
Theorem serializeSignableFields_same_iff `{Imports}
    (c1 c2 : DataAvailabilityCertificate)
    (H1 : 0 <= Timeout c1 < 2 ^ 64) (H2 : 0 <= Timeout c2 < 2 ^ 64) :
  serializeSignableFields c1 = serializeSignableFields c2
  <-> DataHash c1 = DataHash c2 /\ Timeout c1 = Timeout c2.
Proof.
  split; [apply signable_fields_inj; assumption|].
  intros [Ed Et]. unfold serializeSignableFields. rewrite Ed, Et.
  reflexivity.
Qed.

(** A certificate signed again by other members under another keyset has
    the same signable bytes. *)
Lemma serializeSignableFields_same_iff_witness :
  0 <= Timeout Sample.cert < 2 ^ 64
  /\ 0 <= Timeout cert_resigned < 2 ^ 64
  /\ KeysetHash Sample.cert <> KeysetHash cert_resigned
  /\ serializeSignableFields Sample.cert
     = serializeSignableFields cert_resigned.
Proof.
  assert (H1 : 0 <= Timeout Sample.cert < 2 ^ 64) by (cbn; lia).
  assert (H2 : 0 <= Timeout cert_resigned < 2 ^ 64) by (cbn; lia).
  split; [exact H1|]. split; [exact H2|]. split; [discriminate|].
  exact (proj2 (@serializeSignableFields_same_iff Sample.imports
                  Sample.cert cert_resigned H1 H2)
           (conj eq_refl eq_refl)).
Defined.

(** X8: when the signature encoding tells signatures apart, [Serialize]
    tells certificates apart: two certificates with [uint64] timeouts
    and signer masks and the same bytes are the same certificate. *)
Theorem Serialize_inj `{Imports} (c1 c2 : DataAvailabilityCertificate)
    (Hsig : forall s1 s2 : Signature,
        SignatureToBytes s1 = SignatureToBytes s2 -> s1 = s2)
    (Ht1 : 0 <= Timeout c1 < 2 ^ 64) (Ht2 : 0 <= Timeout c2 < 2 ^ 64)
    (Hm1 : 0 <= SignersMask c1 < 2 ^ 64)
    (Hm2 : 0 <= SignersMask c2 < 2 ^ 64) :
  Serialize c1 = Serialize c2 -> c1 = c2.
Proof.
  rewrite !Serialize_unfold. intros E. injection E as E.
  apply app_inj_1 in E as [Ek E];
    [|rewrite !length_vec_to_list; reflexivity].
  apply app_inj_1 in E as [Es E];
    [|rewrite !length_serializeSignableFields; reflexivity].
  apply (app_inj_1 (PutUint64 (SignersMask c1)) (PutUint64 (SignersMask c2)))
    in E as [Em E]; [|reflexivity].
  apply signable_fields_inj in Es as [Ed Et]; [|assumption..].
  apply vec_to_list_inj2 in Ek. apply PutUint64_inj in Em; [|assumption..].
  apply Hsig in E. destruct c1, c2; cbn in *. congruence.
Qed.

Lemma Serialize_inj_witness :
  (forall s1 s2 : @Signature Sample.imports,
      @SignatureToBytes Sample.imports s1 = @SignatureToBytes Sample.imports s2
      -> s1 = s2)
  /\ 0 <= SignersMask Sample.cert < 2 ^ 64
  /\ 0 <= SignersMask cert_resigned < 2 ^ 64
  /\ Serialize Sample.cert <> Serialize cert_resigned.
Proof.
  assert (Hsig : forall s1 s2 : @Signature Sample.imports,
             @SignatureToBytes Sample.imports s1
             = @SignatureToBytes Sample.imports s2 -> s1 = s2)
    by (intros s1 s2; apply vec_to_list_inj2).
  assert (Ht1 : 0 <= Timeout Sample.cert < 2 ^ 64) by (cbn; lia).
  assert (Ht2 : 0 <= Timeout cert_resigned < 2 ^ 64) by (cbn; lia).
  assert (Hm1 : 0 <= SignersMask Sample.cert < 2 ^ 64) by (cbn; lia).
  assert (Hm2 : 0 <= SignersMask cert_resigned < 2 ^ 64) by (cbn; lia).
  split; [exact Hsig|]. split; [exact Hm1|]. split; [exact Hm2|].
  intros E.
  apply (@Serialize_inj Sample.imports Sample.cert cert_resigned
           Hsig Ht1 Ht2 Hm1 Hm2) in E.
  apply (f_equal SignersMask) in E. discriminate E.
Defined.

End WireMore.

(** ** The loader without assumptions on its sources *)
Module ConfMore.

Import ConfUtil Terms MoreTerms ConfFacts.

Local Open Scope string_scope.

(** What a key holds after a merge. *)
Lemma maps_Merge_lookup (mp k : gmap string string) (key : string) :
  maps_Merge mp k !! key
  = match mp !! key with
    | Some v => Some v
    | None => if clashes mp key then None else k !! key
    end.
Proof.
  unfold maps_Merge. rewrite lookup_union.
  destruct (mp !! key) as [v|] eqn:Em.
  - destruct (filter _ k !! key); reflexivity.
  - rewrite (left_id_L None (∪)).
    destruct (clashes mp key) eqn:Ec.
    + apply map_lookup_filter_None. right. intros x _. cbn.
      rewrite Ec. discriminate.
    + destruct (k !! key) as [x|] eqn:Ek.
      * apply map_lookup_filter_Some. split; [exact Ek | exact Ec].
      * apply map_lookup_filter_None. left. exact Ek.
Qed.

Section SetFlags.
Context `{Providers}.
Variable f : gmap string Flag.
Variable key : string.
Variable fl : Flag.
Hypothesis Hflags : tidy (keys (all_flags f)) = true.
Hypothesis Hfl : f !! key = Some fl.
Hypothesis Hch : Changed fl = true.

Lemma within_posflag_Read (k : gmap string string) :
  within (keys (all_flags f)) (posflag_Read f k).
Proof.
  intros q [v Hv]. apply within_keys. unfold posflag_Read in Hv.
  rewrite map_lookup_imap in Hv. unfold all_flags. rewrite lookup_fmap.
  destruct (f !! q); [cbn; eauto | discriminate].
Qed.

Lemma load_posflag_sets (k : gmap string string) :
  snd (load_posflag f k) = None
  /\ fst (load_posflag f k) !! key = Some (Value fl).
Proof.
  unfold load_posflag, k_Load. cbn [fst snd]. split; [reflexivity|].
  rewrite (maps_Unflatten_within _ Hflags) by apply within_posflag_Read.
  rewrite maps_Merge_lookup. unfold posflag_Read.
  rewrite map_lookup_imap, Hfl. cbn. rewrite Hch. reflexivity.
Qed.

Lemma load_config_string_keeps_flag (k k' : gmap string string) :
  k !! key = Some (Value fl) ->
  load_config_string f k = (k', None) -> k' !! key = Some (Value fl).
Proof.
  intros Hk. unfold load_config_string. cbv zeta.
  destruct (0 <? String.length (k_String k "conf.string"))%nat.
  - unfold or_wrap, return_nil.
    destruct (k_Load (json_Unmarshal (k_String k "conf.string")) k)
      as [k1 [err|]]; [discriminate|].
    destruct (load_posflag_sets k1) as [He Hv].
    destruct (load_posflag f k1) as [k2 e2]. cbn in He, Hv. subst e2.
    intros [= <-]. exact Hv.
  - unfold return_nil. intros [= <-]. exact Hk.
Qed.

Lemma loadEnvironmentVariables_yields (k : gmap string string) :
  k !! key = Some (Value fl) ->
  snd (loadEnvironmentVariables k) = None
  /\ flag_or_environment key fl (fst (loadEnvironmentVariables k)).
Proof.
  intros Hk. unfold loadEnvironmentVariables. cbv zeta.
  destruct (String.length (k_String k "conf.env-prefix") =? 0)%nat eqn:E;
    cbn [negb].
  - split; [reflexivity|]. left. exact Hk.
  - split; [reflexivity|]. unfold flag_or_environment, k_Load. cbn [fst].
    rewrite maps_Merge_lookup, Hk.
    destruct (maps_Unflatten
                (env_Read (k_String k "conf.env-prefix" +:+ "_")
                   (env_key (k_String k "conf.env-prefix"))) !! key)
      as [v|] eqn:Ev.
    + right. exists (k_String k "conf.env-prefix").
      split; [intros E0; rewrite E0 in E; discriminate|].
      left. exists v. split; [exact Ev | reflexivity].
    + destruct (clashes _ key) eqn:Ec; [|left; reflexivity].
      right. exists (k_String k "conf.env-prefix").
      split; [intros E0; rewrite E0 in E; discriminate|].
      right. split; [exact Ec | reflexivity].
Qed.

Lemma applyOverrideOverrides_yields (k k' : gmap string string) :
  applyOverrideOverrides f k = (k', None) -> flag_or_environment key fl k'.
Proof.
  unfold applyOverrideOverrides. unfold or_wrap at 1.
  destruct (load_posflag_sets k) as [He1 H1].
  destruct (load_posflag f k) as [k1 e1]. cbn in He1, H1. subst e1.
  unfold or_return.
  destruct (load_config_string f k1) as [k2 [err|]] eqn:E2; [discriminate|].
  pose proof (load_config_string_keeps_flag k1 k2 H1 E2) as H2.
  unfold or_wrap, return_nil.
  destruct (loadEnvironmentVariables_yields k2 H2) as [He Hy].
  destruct (loadEnvironmentVariables k2) as [k3 e3]. cbn in He, Hy.
  subst e3. intros [= <-]. exact Hy.
Qed.

Lemma load_s3_config_yields (k k' : gmap string string) :
  flag_or_environment key fl k ->
  load_s3_config f k = (k', None) -> flag_or_environment key fl k'.
Proof.
  intros Hk. unfold load_s3_config.
  destruct (negb (String.length (k_String k "conf.s3.secret-key") =? 0)%nat).
  - unfold or_wrap, loadS3Variables, s3_Read, k_Load. discriminate.
  - unfold return_nil. intros [= <-]. exact Hk.
Qed.

Lemma load_config_file_yields (k k' : gmap string string) :
  flag_or_environment key fl k ->
  load_config_file f k = (k', None) -> flag_or_environment key fl k'.
Proof.
  intros Hk. unfold load_config_file. cbv zeta.
  destruct (0 <? String.length (k_String k "conf.file"))%nat.
  - unfold or_wrap, or_return, return_nil.
    destruct (load_file (k_String k "conf.file") k) as [k1 [err|]];
      [discriminate|].
    destruct (applyOverrideOverrides f k1) as [k2 [err|]] eqn:E;
      [discriminate|].
    intros [= <-]. eapply applyOverrideOverrides_yields, E.
  - unfold return_nil. intros [= <-]. exact Hk.
Qed.

Lemma applyOverrides_yields (k k' : gmap string string) :
  applyOverrides f k = (k', None) -> flag_or_environment key fl k'.
Proof.
  unfold applyOverrides, or_return, return_nil.
  destruct (applyOverrideOverrides f k) as [k1 [err|]] eqn:E1;
    [discriminate|].
  apply applyOverrideOverrides_yields in E1.
  destruct (load_s3_config f k1) as [k2 [err|]] eqn:E2; [discriminate|].
  apply (load_s3_config_yields _ _ E1) in E2.
  destruct (load_config_file f k2) as [k3 [err|]] eqn:E3; [discriminate|].
  apply (load_config_file_yields _ _ E2) in E3.
  intros [= <-]. exact E3.
Qed.

End SetFlags.

(** X10: a flag set on the command line yields only to the environment:
    when no flag name lies below another, after a successful
    [applyOverrides], whatever the inline string and the file contain,
    the flag's key holds the flag's value, or the value an environment
    variable gives it, or it is gone because the environment sets a
    path above or below it. *)
Theorem set_flag_yields_only_to_environment `{Providers}
    (f : gmap string Flag) (k k' : gmap string string)
    (key : string) (fl : Flag)
    (Hflags : tidy (keys (all_flags f)) = true)
    (Hfl : f !! key = Some fl) (Hch : Changed fl = true)
    (Hrun : applyOverrides f k = (k', None)) :
  k' !! key = Some (Value fl)
  \/ exists envPrefix,
       envPrefix <> ""
       /\ ((exists v,
              maps_Unflatten
                (env_Read (envPrefix +:+ "_") (env_key envPrefix)) !! key
              = Some v
              /\ k' !! key = Some v)
           \/ (clashes
                 (maps_Unflatten
                    (env_Read (envPrefix +:+ "_") (env_key envPrefix))) key
               = true
               /\ k' !! key = None)).
Proof. exact (applyOverrides_yields f key fl Hflags Hfl Hch k k' Hrun). Qed.

(** The data directory set on the sample command line: the environment
    names it too, and wins; the inline string and the file do not get a
    say. *)
Lemma set_flag_yields_only_to_environment_witness :
  tidy (keys (all_flags Sample.flags)) = true
  /\ Sample.flags !! "local-disk.data-dir" = Some (Sample.flag_set "/cli/data")
  /\ snd (@applyOverrides Sample.world Sample.flags ∅) = None
  /\ @flag_or_environment Sample.world "local-disk.data-dir"
       (Sample.flag_set "/cli/data")
       (fst (@applyOverrides Sample.world Sample.flags ∅)).
Proof.
  assert (Ht : tidy (keys (all_flags Sample.flags)) = true)
    by (vm_compute; reflexivity).
  assert (Hfl : Sample.flags !! "local-disk.data-dir"
                = Some (Sample.flag_set "/cli/data"))
    by (vm_compute; reflexivity).
  assert (Hrun : @applyOverrides Sample.world Sample.flags ∅
                 = (fst (@applyOverrides Sample.world Sample.flags ∅), None))
    by (vm_compute; reflexivity).
  split; [exact Ht|]. split; [exact Hfl|]. split; [vm_compute; reflexivity|].
  exact (@set_flag_yields_only_to_environment Sample.world Sample.flags
           ∅ _ "local-disk.data-dir" _ Ht Hfl eq_refl Hrun).
Defined.

Section Failures.
Context `{Providers}.
Variable f : gmap string Flag.

Lemma load_failure_string (text : string) (err : error) :
  json_Unmarshal text = inl err ->
  load_failure (errors_Wrap err "error loading config string config").
Proof.
  intros E. exists err, "error loading config string config".
  split; [reflexivity|]. split; [cbn; tauto|]. left. eauto.
Qed.

Lemma load_config_string_fails (k k' : gmap string string) (e : error) :
  load_config_string f k = (k', Some e) -> load_failure e.
Proof.
  unfold load_config_string. cbv zeta.
  destruct (0 <? String.length (k_String k "conf.string"))%nat;
    [|discriminate].
  unfold or_wrap, load_posflag, k_Load, return_nil.
  destruct (json_Unmarshal (k_String k "conf.string")) as [err|mp] eqn:E;
    [|discriminate].
  intros [= _ <-]. eapply load_failure_string, E.
Qed.

Lemma loadEnvironmentVariables_nil (k : gmap string string) :
  snd (loadEnvironmentVariables k) = None.
Proof.
  unfold loadEnvironmentVariables. cbv zeta.
  destruct (negb (String.length (k_String k "conf.env-prefix") =? 0)%nat);
    reflexivity.
Qed.

Lemma applyOverrideOverrides_fails (k k' : gmap string string) (e : error) :
  applyOverrideOverrides f k = (k', Some e) -> load_failure e.
Proof.
  unfold applyOverrideOverrides. unfold or_wrap at 1.
  unfold load_posflag at 1. cbn [k_Load]. unfold or_return.
  destruct (load_config_string f
              (maps_Merge (maps_Unflatten (posflag_Read f k)) k))
    as [k2 [err|]] eqn:E2.
  - intros [= _ <-]. eapply load_config_string_fails, E2.
  - unfold or_wrap, return_nil.
    pose proof (loadEnvironmentVariables_nil k2) as He.
    destruct (loadEnvironmentVariables k2) as [k3 e3]. cbn in He. subst e3.
    discriminate.
Qed.

Lemma load_s3_config_fails (k k' : gmap string string) (e : error) :
  load_s3_config f k = (k', Some e) -> load_failure e.
Proof.
  unfold load_s3_config.
  destruct (negb (String.length (k_String k "conf.s3.secret-key") =? 0)%nat);
    [|discriminate].
  unfold or_wrap, or_return, return_nil, loadS3Variables, k_Load.
  match goal with |- context [s3_Read ?cfg] =>
    destruct (s3_Read cfg) as [err|mp] eqn:E end.
  - intros [= _ <-]. exists err, "error loading S3 settings".
    split; [reflexivity|]. split; [cbn; tauto|]. right; left. eauto.
  - destruct (applyOverrideOverrides f (maps_Merge mp k))
      as [k2 [err|]] eqn:E2; [|discriminate].
    intros [= _ <-]. eapply applyOverrideOverrides_fails, E2.
Qed.

Lemma load_config_file_fails (k k' : gmap string string) (e : error) :
  load_config_file f k = (k', Some e) -> load_failure e.
Proof.
  unfold load_config_file. cbv zeta.
  destruct (0 <? String.length (k_String k "conf.file"))%nat; [|discriminate].
  unfold or_wrap, or_return, return_nil, load_file, k_Load.
  destruct (file_ReadBytes (k_String k "conf.file")) as [err|b] eqn:Ef.
  - intros [= _ <-]. exists err, "error loading local config file".
    split; [reflexivity|]. split; [cbn; tauto|]. right; right. eauto.
  - destruct (json_Unmarshal b) as [err|mp] eqn:Ej.
    + intros [= _ <-]. exists err, "error loading local config file".
      split; [reflexivity|]. split; [cbn; tauto|]. left. eauto.
    + destruct (applyOverrideOverrides f (maps_Merge mp k))
        as [k2 [err|]] eqn:E2; [|discriminate].
      intros [= _ <-]. eapply applyOverrideOverrides_fails, E2.
Qed.

End Failures.

(** X11: the only errors [applyOverrides] returns are the error of a
    provider (the JSON parser, the file reader, the S3 reader) wrapped
    in one of three messages: for the config string, for the S3
    settings, for the local config file.  Loading the command line and
    loading the environment never fail. *)
Theorem applyOverrides_fails_only_on_sources `{Providers}
    (f : gmap string Flag) (k k' : gmap string string) (e : error)
    (Hrun : applyOverrides f k = (k', Some e)) :
  exists err msg,
    e = errors_Wrap err msg
    /\ In msg load_messages
    /\ provider_failure err.
Proof.
  revert Hrun. unfold applyOverrides, or_return, return_nil.
  destruct (applyOverrideOverrides f k) as [k1 [e1|]] eqn:E1.
  { intros [= _ <-]. eapply applyOverrideOverrides_fails, E1. }
  destruct (load_s3_config f k1) as [k2 [e2|]] eqn:E2.
  { intros [= _ <-]. eapply load_s3_config_fails, E2. }
  destruct (load_config_file f k2) as [k3 [e3|]] eqn:E3; [|discriminate].
  intros [= _ <-]. eapply load_config_file_fails, E3.
Qed.

(** A file that cannot be read: the loader returns the reader's error
    under the message of the local config file. *)
Lemma applyOverrides_fails_only_on_sources_witness :
  exists k' e,
    @applyOverrides Sample.world
      (<["conf.file" := Sample.flag_set "/missing.json"]> flags_plain) ∅
    = (k', Some e)
    /\ e = errors_Wrap (errors_New "no such file")
             "error loading local config file"
    /\ @load_failure Sample.world e.
Proof.
  exists (fst (@applyOverrides Sample.world
                 (<["conf.file" := Sample.flag_set "/missing.json"]>
                    flags_plain) ∅)),
         (errors_Wrap (errors_New "no such file")
            "error loading local config file").
  assert (Hrun : @applyOverrides Sample.world
                   (<["conf.file" := Sample.flag_set "/missing.json"]>
                      flags_plain) ∅
                 = (fst (@applyOverrides Sample.world
                           (<["conf.file" := Sample.flag_set "/missing.json"]>
                              flags_plain) ∅),
                    Some (errors_Wrap (errors_New "no such file")
                            "error loading local config file")))
    by (vm_compute; reflexivity).
  split; [exact Hrun|]. split; [reflexivity|].
  exact (@applyOverrides_fails_only_on_sources Sample.world _ _ _ _ Hrun).
Defined.

(** X12: an inline configuration string that does not parse stops the
    loader at once: when no flag name lies below another and the
    arguments parse without a positional argument, the parser's error
    comes back wrapped, the configuration holds the flags only, and
    [BeginCommonParse] returns no configuration.  The environment and
    the file are not read. *)
Theorem bad_config_string_aborts `{Providers}
    (f0 : gmap string Flag) (args : list string) (f : gmap string Flag)
    (err : error)
    (Hparse : pflag_Parse f0 args = inr (f, 0%nat))
    (Hflags : tidy (keys (all_flags f)) = true)
    (Hlen : (0 <? String.length (option_of f "conf.string"))%nat = true)
    (Herr : json_Unmarshal (option_of f "conf.string") = inl err) :
  applyOverrides f ∅
  = (all_flags f,
     Some (errors_Wrap err "error loading config string config"))
  /\ BeginCommonParse f0 args
     = (None, Some (errors_Wrap err "error loading config string config")).
Proof.
  assert (Hs : k_String (all_flags f) "conf.string"
               = option_of f "conf.string").
  { unfold k_String. unfold option_of in Hlen |- *.
    destruct (all_flags f !! "conf.string"); [reflexivity|].
    cbn in Hlen. discriminate. }
  assert (E : applyOverrides f ∅
              = (all_flags f,
                 Some (errors_Wrap err "error loading config string config"))).
  { assert (E1 : applyOverrideOverrides f ∅
                 = (all_flags f,
                    Some (errors_Wrap err
                            "error loading config string config"))).
    { unfold applyOverrideOverrides. unfold or_wrap at 1.
      rewrite (load_posflag_empty f _ Hflags (within_keys _)).
      unfold or_return. unfold load_config_string at 1. cbv zeta.
      rewrite Hs, Hlen. unfold or_wrap at 1. unfold k_Load at 1.
      rewrite Herr. reflexivity. }
    unfold applyOverrides. unfold or_return at 1. rewrite E1. reflexivity. }
  split; [exact E|]. unfold BeginCommonParse. rewrite Hparse.
  cbn [Nat.eqb negb]. rewrite E. reflexivity.
Qed.

Lemma bad_config_string_aborts_witness :
  @pflag_Parse Sample.world flags_bad_string_declared args_bad_string
  = inr (flags_bad_string, 0%nat)
  /\ tidy (keys (all_flags flags_bad_string)) = true
  /\ (0 <? String.length (option_of flags_bad_string "conf.string"))%nat
     = true
  /\ @json_Unmarshal Sample.world (option_of flags_bad_string "conf.string")
     = inl (errors_New "invalid character")
  /\ @BeginCommonParse Sample.world flags_bad_string_declared args_bad_string
     = (None,
        Some (errors_Wrap (errors_New "invalid character")
                "error loading config string config")).
Proof.
  assert (Hparse : @pflag_Parse Sample.world flags_bad_string_declared
                     args_bad_string = inr (flags_bad_string, 0%nat))
    by (vm_compute; reflexivity).
  assert (Ht : tidy (keys (all_flags flags_bad_string)) = true)
    by (vm_compute; reflexivity).
  assert (Hlen : (0 <? String.length (option_of flags_bad_string
                                        "conf.string"))%nat = true)
    by (vm_compute; reflexivity).
  assert (Herr : @json_Unmarshal Sample.world
                   (option_of flags_bad_string "conf.string")
                 = inl (errors_New "invalid character"))
    by (vm_compute; reflexivity).
  split; [exact Hparse|]. split; [exact Ht|]. split; [exact Hlen|].
  split; [exact Herr|].
  exact (proj2 (@bad_config_string_aborts Sample.world _ _ _ _
                  Hparse Ht Hlen Herr)).
Defined.



Lemma chars_append (a b : string) :
  chars (a +:+ b) = (chars a ++ chars b)%list.
Proof.
  unfold chars. induction a as [|c a IH]; [reflexivity|].
  change (String c a +:+ b) with (String c (a +:+ b)).
  change (list_ascii_of_string (String c (a +:+ b)))
    with (c :: list_ascii_of_string (a +:+ b)).
  rewrite IH. reflexivity.
Qed.

Lemma cut_prefix_Some (s prefix rest : string) :
  cut_prefix s prefix = Some rest -> s = prefix +:+ rest.
Proof.
  revert s. induction prefix as [|p prefix IH]; intros s.
  - destruct s; cbn; intros [= <-]; reflexivity.
  - destruct s as [|c s]; cbn; [discriminate|].
    destruct (Ascii.eqb_spec c p) as [->|]; [|discriminate].
    intros E. apply IH in E. rewrite E. reflexivity.
Qed.

Lemma ReplaceAll_from_chars (fuel : nat) (s old new : string) (c : ascii) :
  In c (chars (ReplaceAll_from fuel s old new)) ->
  In c (chars s) \/ In c (chars new).
Proof.
  revert s. induction fuel as [|fuel IH]; intros s; cbn [ReplaceAll_from].
  - auto.
  - destruct s as [|d s]; [auto|].
    destruct (cut_prefix (String d s) old) as [rest|] eqn:E.
    + rewrite chars_append, in_app_iff. intros [Hc|Hc]; [auto|].
      apply IH in Hc as [Hc|Hc]; [|auto]. left.
      apply cut_prefix_Some in E. rewrite E, chars_append, in_app_iff. auto.
    + change (chars (String d (ReplaceAll_from fuel s old new)))
        with (d :: chars (ReplaceAll_from fuel s old new)).
      change (chars (String d s)) with (d :: chars s).
      intros [->|Hc]; [left; left; reflexivity|].
      apply IH in Hc as [Hc|Hc]; [left; right; exact Hc | auto].
Qed.

Lemma ReplaceAll_from_underscore (fuel : nat) (s : string) :
  (String.length s <= fuel)%nat ->
  ~ In "_"%char (chars (ReplaceAll_from fuel s "_" ".")).
Proof.
  revert s. induction fuel as [|fuel IH]; intros s Hl.
  - destruct s; [intros []|cbn in Hl; lia].
  - destruct s as [|d s]; [intros []|]. cbn in Hl.
    assert (Hs : (String.length s <= fuel)%nat) by lia.
    cbn [ReplaceAll_from cut_prefix].
    destruct (Ascii.eqb_spec d "_") as [->|Hd].
    + destruct s; cbn [cut_prefix];
        (intros [Hc|Hc]; [discriminate | exact (IH _ Hs Hc)]).
    + intros [Hc|Hc]; [congruence | exact (IH _ Hs Hc)].
Qed.

Lemma is_upper_lower_ascii (c : ascii) : is_upper (lower_ascii c) = false.
Proof. destruct c as [[] [] [] [] [] [] [] []]; reflexivity. Qed.

Lemma ascii_ToLower_chars (s : string) (c : ascii) :
  In c (chars (ascii_ToLower s)) -> is_upper c = false.
Proof.
  induction s as [|d s IH]; [intros []|].
  intros [<-|Hc]; [apply is_upper_lower_ascii | exact (IH Hc)].
Qed.

Lemma is_ascii_append (a b : string) :
  is_ascii (a +:+ b) = true -> is_ascii b = true.
Proof.
  induction a as [|c a IH]; [intros E; exact E|].
  change (is_ascii (String c (a +:+ b)) = true -> is_ascii b = true).
  cbn [is_ascii]. intros E. apply andb_true_iff in E as [_ E]. exact (IH E).
Qed.

Lemma is_ascii_TrimPrefix (s prefix : string) :
  is_ascii s = true -> is_ascii (strings_TrimPrefix s prefix) = true.
Proof.
  intros Hs. unfold strings_TrimPrefix.
  destruct (cut_prefix s prefix) as [rest|] eqn:E; [|exact Hs].
  apply cut_prefix_Some in E. rewrite E in Hs.
  eapply is_ascii_append, Hs.
Qed.

(** X14: a key made from the name of an environment variable contains
    no underscore, whatever the name and the prefix, and no ASCII
    capital letter when the name is pure ASCII. *)
Theorem env_key_chars `{Providers} (envPrefix s : string) (c : ascii) :
  In c (chars (env_key envPrefix s)) ->
  c <> "_"%char /\ (is_ascii s = true -> is_upper c = false).
Proof.
  unfold env_key. cbv zeta. unfold strings_ReplaceAll at 1. intros Hc.
  split.
  - intros ->. revert Hc. apply ReplaceAll_from_underscore. lia.
  - intros Hs.
    apply ReplaceAll_from_chars in Hc as [Hc|[<-|[]]]; [|reflexivity].
    unfold strings_ReplaceAll in Hc.
    apply ReplaceAll_from_chars in Hc as [Hc|[<-|[]]]; [|reflexivity].
    unfold strings_ToLower in Hc.
    rewrite (is_ascii_TrimPrefix s (envPrefix +:+ "_") Hs) in Hc.
    eapply ascii_ToLower_chars, Hc.
Qed.

Lemma env_key_chars_witness :
  In "-"%char
    (chars (@env_key Sample.world "NITRO" "NITRO_LOCAL__DISK_DATA__DIR"))
  /\ is_ascii "NITRO_LOCAL__DISK_DATA__DIR" = true
  /\ "-"%char <> "_"%char /\ is_upper "-" = false.
Proof.
  assert (Hin : In "-"%char
                  (chars (@env_key Sample.world "NITRO"
                            "NITRO_LOCAL__DISK_DATA__DIR")))
    by (vm_compute; tauto).
  split; [exact Hin|]. split; [reflexivity|].
  destruct (@env_key_chars Sample.world "NITRO"
              "NITRO_LOCAL__DISK_DATA__DIR" "-" Hin) as [H1 H2].
  split; [exact H1 | exact (H2 eq_refl)].
Defined.

(** X15: re-applying the overrides changes nothing: when no key lies
    below another, the inline string loads, and neither it nor the
    environment sets an option of the loader, then on a configuration
    whose keys are among these, with a key for every flag and the
    loader's options as the command line leaves them, applying
    [applyOverrideOverrides] to its own result gives that result again. *)
Theorem applyOverrideOverrides_idempotent `{Providers}
    (f : gmap string Flag) (str k : gmap string string)
    (Htidy : tidy (universe f str ∅) = true)
    (Hstr : string_source f = inr str)
    (Henv_ctl : no_control (env_source f) = true)
    (Hstr_ctl : no_control str = true)
    (Hk : steady f (universe f str ∅) k) :
  applyOverrideOverrides f (fst (applyOverrideOverrides f k))
  = applyOverrideOverrides f k.
Proof.
  destruct (universe_within f str ∅) as (Hf & Hc & He & Hs & _).
  rewrite (applyOverrideOverrides_layers f str (universe f str ∅)
             Htidy Hf Hc He Hs Hstr Hstr_ctl k Hk).
  cbn [fst].
  rewrite (applyOverrideOverrides_layers f str (universe f str ∅)
             Htidy Hf Hc He Hs Hstr Hstr_ctl).
  - f_equal. layers_eq.
  - apply (steady_layers f str (universe f str ∅)); assumption.
Qed.

Lemma applyOverrideOverrides_idempotent_witness :
  exists str : gmap string string,
    tidy (@universe Sample.world flags_inline str ∅) = true
    /\ @string_source Sample.world flags_inline = inr str
    /\ no_control (@env_source Sample.world flags_inline) = true
    /\ no_control str = true
    /\ fst (@applyOverrideOverrides Sample.world flags_inline
              (all_flags flags_inline)) !! "mode" = Some "local-disk"
    /\ @applyOverrideOverrides Sample.world flags_inline
         (fst (@applyOverrideOverrides Sample.world flags_inline
                 (all_flags flags_inline)))
       = @applyOverrideOverrides Sample.world flags_inline
           (all_flags flags_inline).
Proof.
  exists {[ "mode" := "aggregator"; "store-signer" := "none";
            "local-disk.key-dir" := "/inline/keys" ]}.
  assert (Ht : tidy (@universe Sample.world flags_inline
                       {[ "mode" := "aggregator"; "store-signer" := "none";
                          "local-disk.key-dir" := "/inline/keys" ]} ∅)
               = true)
    by (vm_compute; reflexivity).
  assert (Hstr : @string_source Sample.world flags_inline
                 = inr {[ "mode" := "aggregator"; "store-signer" := "none";
                          "local-disk.key-dir" := "/inline/keys" ]})
    by (vm_compute; reflexivity).
  assert (He : no_control (@env_source Sample.world flags_inline) = true)
    by (vm_compute; reflexivity).
  split; [exact Ht|]. split; [exact Hstr|]. split; [exact He|].
  split; [reflexivity|]. split; [vm_compute; reflexivity|].
  refine (@applyOverrideOverrides_idempotent Sample.world flags_inline _ _
            Ht Hstr He eq_refl _).
  split; [|split; [apply covers_all_flags | apply agrees_all_flags]].
  apply (proj1 (@universe_within Sample.world flags_inline _ ∅)).
Defined.

(** X16: with no source named (no inline string, no environment prefix,
    no file, no S3 secret key), arguments that parse without a
    positional argument, and no flag name below another or below an
    option of the loader, [BeginCommonParse] succeeds and the
    configuration is exactly the flags with their current values. *)
Theorem command_line_alone `{Providers}
    (f0 : gmap string Flag) (args : list string) (f : gmap string Flag)
    (Hparse : pflag_Parse f0 args = inr (f, 0%nat))
    (Htidy : tidy (universe f ∅ ∅) = true)
    (Hstring : option_of f "conf.string" = "")
    (Hprefix : option_of f "conf.env-prefix" = "")
    (Hfile : option_of f "conf.file" = "")
    (Hsecret : option_of f "conf.s3.secret-key" = "") :
  BeginCommonParse f0 args = (Some (all_flags f), None).
Proof.
  assert (Es : string_source f = inr ∅)
    by (unfold string_source; rewrite Hstring; reflexivity).
  assert (Ef : file_source f = inr ∅)
    by (unfold file_source; rewrite Hfile; reflexivity).
  assert (Ee : env_source f = ∅)
    by (unfold env_source; rewrite Hprefix; reflexivity).
  assert (Hn : no_control (env_source f) = true)
    by (rewrite Ee; reflexivity).
  destruct (universe_within f ∅ ∅) as (Hf & Hc & He & Hs & Hfi).
  unfold BeginCommonParse. rewrite Hparse. cbn [Nat.eqb negb].
  rewrite (applyOverrides_layers f ∅ ∅ (universe f ∅ ∅)
             Htidy Hf Hc He Hs Hfi Hsecret Es Ef Hn eq_refl eq_refl).
  rewrite Ee, !(left_id_L ∅ (∪)), set_flags_all_flags. reflexivity.
Qed.

Lemma command_line_alone_witness :
  @pflag_Parse Sample.world flags_plain_declared args_plain
  = inr (flags_plain, 0%nat)
  /\ tidy (@universe Sample.world flags_plain ∅ ∅) = true
  /\ option_of flags_plain "conf.string" = ""
  /\ option_of flags_plain "conf.env-prefix" = ""
  /\ option_of flags_plain "conf.file" = ""
  /\ option_of flags_plain "conf.s3.secret-key" = ""
  /\ @BeginCommonParse Sample.world flags_plain_declared args_plain
     = (Some (all_flags flags_plain), None).
Proof.
  assert (Hparse : @pflag_Parse Sample.world flags_plain_declared args_plain
                   = inr (flags_plain, 0%nat))
    by (vm_compute; reflexivity).
  assert (Ht : tidy (@universe Sample.world flags_plain ∅ ∅) = true)
    by (vm_compute; reflexivity).
  split; [exact Hparse|]. split; [exact Ht|].
  repeat (split; [vm_compute; reflexivity|]).
  exact (@command_line_alone Sample.world _ _ _ Hparse Ht
           eq_refl eq_refl eq_refl eq_refl).
Defined.

(** X17: the S3 configuration never loads: when a secret key is
    configured (and no key lies below another, the inline string loads,
    no source sets an option of the loader), the first round of
    overrides is applied and then the loader fails with the provider's
    error under "error loading S3 settings"; [BeginCommonParse] returns
    no configuration, and the local config file is not read. *)
Theorem s3_config_never_loads `{Providers}
    (f0 : gmap string Flag) (args : list string) (f : gmap string Flag)
    (str : gmap string string)
    (Hparse : pflag_Parse f0 args = inr (f, 0%nat))
    (Htidy : tidy (universe f str ∅) = true)
    (Hsecret : option_of f "conf.s3.secret-key" <> "")
    (Hstr : string_source f = inr str)
    (Henv_ctl : no_control (env_source f) = true)
    (Hstr_ctl : no_control str = true) :
  applyOverrides f ∅
  = (env_source f ∪ (set_flags f ∪ (str ∪ all_flags f)),
     Some (errors_Wrap s3_unsupported "error loading S3 settings"))
  /\ BeginCommonParse f0 args
     = (None, Some (errors_Wrap s3_unsupported "error loading S3 settings")).
Proof.
  destruct (universe_within f str ∅) as (Hf & Hc & He & Hs & _).
  assert (E : applyOverrides f ∅
              = (env_source f ∪ (set_flags f ∪ (str ∪ all_flags f)),
                 Some (errors_Wrap s3_unsupported
                         "error loading S3 settings"))).
  { unfold applyOverrides. unfold or_return at 1.
    rewrite (applyOverrideOverrides_empty f str (universe f str ∅)
               Htidy Hf Hc He Hs Hstr Hstr_ctl).
    unfold or_return at 1. unfold load_s3_config.
    destruct (steady_layers f str (universe f str ∅) Hf He Hs
                Henv_ctl Hstr_ctl (all_flags f)
                (steady_all_flags f (universe f str ∅) Hf))
      as (Hk & _ & Ha).
    rewrite (agrees_String f (universe f str ∅) Htidy Hc _
               "conf.s3.secret-key" Hk Ha) by (cbn; tauto).
    destruct (option_of f "conf.s3.secret-key") as [|c rest];
      [contradiction|].
    reflexivity. }
  split; [exact E|]. unfold BeginCommonParse. rewrite Hparse.
  cbn [Nat.eqb negb]. rewrite E. reflexivity.
Qed.

Lemma s3_config_never_loads_witness :
  exists str : gmap string string,
    @pflag_Parse Sample.world flags_s3_declared args_s3
    = inr (flags_s3, 0%nat)
    /\ tidy (@universe Sample.world flags_s3 str ∅) = true
    /\ option_of flags_s3 "conf.s3.secret-key" <> ""
    /\ @string_source Sample.world flags_s3 = inr str
    /\ no_control (@env_source Sample.world flags_s3) = true
    /\ no_control str = true
    /\ @BeginCommonParse Sample.world flags_s3_declared args_s3
       = (None,
          Some (errors_Wrap
                  (errors_New "s3 provider does not support this method")
                  "error loading S3 settings")).
Proof.
  exists ∅.
  assert (Hparse : @pflag_Parse Sample.world flags_s3_declared args_s3
                   = inr (flags_s3, 0%nat))
    by (vm_compute; reflexivity).
  assert (Ht : tidy (@universe Sample.world flags_s3 ∅ ∅) = true)
    by (vm_compute; reflexivity).
  assert (Hsec : option_of flags_s3 "conf.s3.secret-key" <> "")
    by (vm_compute; discriminate).
  assert (Hstr : @string_source Sample.world flags_s3 = inr ∅)
    by (vm_compute; reflexivity).
  assert (He : no_control (@env_source Sample.world flags_s3) = true)
    by (vm_compute; reflexivity).
  split; [exact Hparse|]. split; [exact Ht|]. split; [exact Hsec|].
  split; [exact Hstr|]. split; [exact He|]. split; [reflexivity|].
  exact (proj2 (@s3_config_never_loads Sample.world _ _ _ _
                  Hparse Ht Hsec Hstr He eq_refl)).
Defined.

End ConfMore.
